(** * TandCreview: the section ledger of [main.py], embedded and verified

    The development follows class [TCReviewer] of [src/main.py]:
    - [Chars], [Text]: Python's [str] and the methods the class calls
      ([strip], [lower], [split], [join], slicing);
    - [Sha256]: [hashlib.sha256] (FIPS 180-4) over 32-bit words kept in [Z];
    - [Regex]: the fragment of [re] the five patterns of the class use, with
      [re.split];
    - [Json]: [json.dump(..., indent=2, ensure_ascii=False)] and [json.load]
      on the shape of the review database;
    - the database [self.reviewed_sections], a [dict]: a [gmap] and, beside
      it, the keys in the order of their insertion, which is the order in
      which the file is written and read;
    - [TCReviewer]: the methods themselves, with the database file and the
      prompts as explicit state.

    Text is [string]: a character is one of the code points 0..255 and is
    classified as Python classifies that code point. *)

From Stdlib Require Import ZArith Ascii String List Bool Lia.
From stdpp Require Import gmap strings list fin_maps.
Import ListNotations.

Local Open Scope Z_scope.

(* ===================================================================== *)
(** ** Characters *)
(* ===================================================================== *)

Module Chars.

Definition code (c : ascii) : Z := Z.of_N (N_of_ascii c).
Definition chr (z : Z) : ascii := ascii_of_N (Z.to_N z).

Definition between (lo hi : Z) (c : ascii) : bool :=
  (lo <=? code c) && (code c <=? hi).

(** [str.isspace] on one character, which is also [\s] of [re] on [str]
    patterns: TAB..CR, FS..US, SPACE, NEL, NBSP. *)
Definition is_space (c : ascii) : bool :=
  between 9 13 c || between 28 32 c || (code c =? 133) || (code c =? 160).

(** [[A-Z]] *)
Definition is_upper (c : ascii) : bool := between 65 90 c.

(** [\d] on [str] patterns: the decimal digits (category Nd). *)
Definition is_digit (c : ascii) : bool := between 48 57 c.

(** [str.lower] on one character: A..Z and the capital letters of the
    Latin-1 supplement (all of U+00C0..U+00DE but the multiplication sign). *)
Definition lower (c : ascii) : ascii :=
  if between 65 90 c || (between 192 222 c && negb (code c =? 215))
  then chr (code c + 32) else c.

Definition nl : ascii := chr 10.

End Chars.

(* ===================================================================== *)
(** ** Text: the [str] methods used by the class *)
(* ===================================================================== *)

Module Text.

Definition is_empty (s : string) : bool :=
  match s with EmptyString => true | String _ _ => false end.

(** [s.lower()] *)
Fixpoint lower (s : string) : string :=
  match s with
  | EmptyString => EmptyString
  | String c s' => String (Chars.lower c) (lower s')
  end.

(** [s.lstrip()] *)
Fixpoint lstrip (s : string) : string :=
  match s with
  | EmptyString => EmptyString
  | String c s' => if Chars.is_space c then lstrip s' else s
  end.

(** [s.rstrip()] *)
Fixpoint rstrip (s : string) : string :=
  match s with
  | EmptyString => EmptyString
  | String c s' =>
      let r := rstrip s' in
      if Chars.is_space c && is_empty r then EmptyString else String c r
  end.

(** [s.strip()] *)
Definition strip (s : string) : string := rstrip (lstrip s).

(** [s[:n]] *)
Fixpoint take (n : nat) (s : string) : string :=
  match n, s with
  | S n', String c s' => String c (take n' s')
  | _, _ => EmptyString
  end.

Fixpoint starts_with (p s : string) : bool :=
  match p, s with
  | EmptyString, _ => true
  | String a p', String b s' => Ascii.eqb a b && starts_with p' s'
  | String _ _, EmptyString => false
  end.

(** [sep.join(l)] *)
Fixpoint join (sep : string) (l : list string) : string :=
  match l with
  | [] => EmptyString
  | [x] => x
  | x :: l' => x +:+ sep +:+ join sep l'
  end.

(** The first piece of a split gets one more character in front. *)
Definition push (c : ascii) (l : list string) : list string :=
  match l with
  | [] => [String c EmptyString]
  | p :: ps => String c p :: ps
  end.

(** [s.split(sep)] for a non-empty [sep]: the occurrences of [sep] are
    found from the left and do not overlap; [skip] counts the characters of
    an occurrence that are still to be dropped. *)
Fixpoint split_from (sep : string) (skip : nat) (s : string) : list string :=
  match s with
  | EmptyString => [EmptyString]
  | String c s' =>
      match skip with
      | S k => split_from sep k s'
      | O =>
          if starts_with sep s
          then EmptyString :: split_from sep (String.length sep - 1) s'
          else push c (split_from sep O s')
      end
  end.

Definition split (sep s : string) : list string := split_from sep O s.

End Text.

(* ===================================================================== *)
(** ** SHA-256 ([hashlib.sha256]) and UTF-8 *)
(* ===================================================================== *)

Module Sha256.

Definition mask32 : Z := 0xFFFFFFFF.
Definition add32 (x y : Z) : Z := Z.land (x + y) mask32.
Definition rotr (n x : Z) : Z :=
  Z.lor (Z.shiftr x n) (Z.land (Z.shiftl x (32 - n)) mask32).
Definition not32 (x : Z) : Z := Z.lxor x mask32.

Definition Ch (x y z : Z) : Z := Z.lxor (Z.land x y) (Z.land (not32 x) z).
Definition Maj (x y z : Z) : Z :=
  Z.lxor (Z.lxor (Z.land x y) (Z.land x z)) (Z.land y z).
Definition Sigma0 (x : Z) : Z := Z.lxor (Z.lxor (rotr 2 x) (rotr 13 x)) (rotr 22 x).
Definition Sigma1 (x : Z) : Z := Z.lxor (Z.lxor (rotr 6 x) (rotr 11 x)) (rotr 25 x).
Definition sigma0 (x : Z) : Z := Z.lxor (Z.lxor (rotr 7 x) (rotr 18 x)) (Z.shiftr x 3).
Definition sigma1 (x : Z) : Z := Z.lxor (Z.lxor (rotr 17 x) (rotr 19 x)) (Z.shiftr x 10).

Definition K : list Z :=
  [ 0x428A2F98; 0x71374491; 0xB5C0FBCF; 0xE9B5DBA5; 0x3956C25B; 0x59F111F1;
    0x923F82A4; 0xAB1C5ED5; 0xD807AA98; 0x12835B01; 0x243185BE; 0x550C7DC3;
    0x72BE5D74; 0x80DEB1FE; 0x9BDC06A7; 0xC19BF174; 0xE49B69C1; 0xEFBE4786;
    0x0FC19DC6; 0x240CA1CC; 0x2DE92C6F; 0x4A7484AA; 0x5CB0A9DC; 0x76F988DA;
    0x983E5152; 0xA831C66D; 0xB00327C8; 0xBF597FC7; 0xC6E00BF3; 0xD5A79147;
    0x06CA6351; 0x14292967; 0x27B70A85; 0x2E1B2138; 0x4D2C6DFC; 0x53380D13;
    0x650A7354; 0x766A0ABB; 0x81C2C92E; 0x92722C85; 0xA2BFE8A1; 0xA81A664B;
    0xC24B8B70; 0xC76C51A3; 0xD192E819; 0xD6990624; 0xF40E3585; 0x106AA070;
    0x19A4C116; 0x1E376C08; 0x2748774C; 0x34B0BCB5; 0x391C0CB3; 0x4ED8AA4A;
    0x5B9CCA4F; 0x682E6FF3; 0x748F82EE; 0x78A5636F; 0x84C87814; 0x8CC70208;
    0x90BEFFFA; 0xA4506CEB; 0xBEF9A3F7; 0xC67178F2 ].

Definition H0 : list Z :=
  [ 0x6A09E667; 0xBB67AE85; 0x3C6EF372; 0xA54FF53A;
    0x510E527F; 0x9B05688C; 0x1F83D9AB; 0x5BE0CD19 ].

(** Padding: the byte 0x80, zero bytes up to 56 modulo 64, then the length
    in bits as a big-endian 64-bit number. *)
Definition be_bytes (n : nat) (x : Z) : list Z :=
  map (fun i => Z.land (Z.shiftr x (8 * Z.of_nat i)) 0xFF) (rev (seq 0 n)).

Definition pad (msg : list Z) : list Z :=
  let len := Z.of_nat (length msg) in
  msg ++ [0x80] ++ repeat 0 (Z.to_nat ((55 - len) mod 64)) ++ be_bytes 8 (8 * len).

(** Big-endian 32-bit words. *)
Fixpoint words (bs : list Z) : list Z :=
  match bs with
  | b0 :: b1 :: b2 :: b3 :: rest =>
      Z.lor (Z.shiftl b0 24) (Z.lor (Z.shiftl b1 16) (Z.lor (Z.shiftl b2 8) b3))
      :: words rest
  | _ => []
  end.

(** The message schedule: W_0..W_15 are the block, then 48 more words. *)
Definition extend (W : list Z) (t : nat) : list Z :=
  W ++ [ add32 (add32 (add32 (sigma1 (nth (t - 2) W 0)) (nth (t - 7) W 0))
                      (sigma0 (nth (t - 15) W 0)))
               (nth (t - 16) W 0) ].

Definition schedule (block : list Z) : list Z :=
  fold_left extend (seq 16 48) block.

Record regs : Type :=
  Regs { ra : Z; rb : Z; rc : Z; rd : Z; re : Z; rf : Z; rg : Z; rh : Z }.

Definition round (r : regs) (kw : Z * Z) : regs :=
  let t1 := add32 (add32 (add32 (add32 (rh r) (Sigma1 (re r)))
                                (Ch (re r) (rf r) (rg r))) (fst kw)) (snd kw) in
  let t2 := add32 (Sigma0 (ra r)) (Maj (ra r) (rb r) (rc r)) in
  Regs (add32 t1 t2) (ra r) (rb r) (rc r) (add32 (rd r) t1) (re r) (rf r) (rg r).

Definition regs_of (h : list Z) : regs :=
  Regs (nth 0 h 0) (nth 1 h 0) (nth 2 h 0) (nth 3 h 0)
       (nth 4 h 0) (nth 5 h 0) (nth 6 h 0) (nth 7 h 0).

Definition list_of (r : regs) : list Z :=
  [ra r; rb r; rc r; rd r; re r; rf r; rg r; rh r].

Definition compress (h : list Z) (block : list Z) : list Z :=
  let r := fold_left round (combine K (schedule block)) (regs_of h) in
  map (fun p => add32 (fst p) (snd p)) (combine h (list_of r)).

Fixpoint blocks (n : nat) (ws : list Z) : list (list Z) :=
  match n with
  | O => []
  | S n' => firstn 16 ws :: blocks n' (skipn 16 ws)
  end.

Definition digest (msg : list Z) : list Z :=
  let ws := words (pad msg) in
  fold_left compress (blocks (length ws / 16) ws) H0.

Definition hex_digit (d : Z) : ascii :=
  if d <? 10 then Chars.chr (48 + d) else Chars.chr (87 + d).

Definition hex32 (w : Z) : string :=
  fold_right (fun i acc => String (hex_digit (Z.land (Z.shiftr w (4 * Z.of_nat i)) 0xF)) acc)
             EmptyString (rev (seq 0 8)).

(** [.hexdigest()] *)
Definition hexdigest (msg : list Z) : string :=
  fold_right (fun w acc => hex32 w +:+ acc) EmptyString (digest msg).

(** [s.encode('utf-8')] on code points below 256: one byte below 128, two
    bytes from 128 on. *)
Fixpoint utf8 (s : string) : list Z :=
  match s with
  | EmptyString => []
  | String c s' =>
      let z := Chars.code c in
      (if z <? 128 then [z]
       else [Z.lor 0xC0 (Z.shiftr z 6); Z.lor 0x80 (Z.land z 0x3F)]) ++ utf8 s'
  end.

End Sha256.

(** [TCReviewer.hash_section] *)
Definition hash_section (text : string) : string :=
  let normalized := Text.lower (Text.strip text) in
  Sha256.hexdigest (Sha256.utf8 normalized).

(* ===================================================================== *)
(** ** Regular expressions: the fragment of [re] used by the class *)
(* ===================================================================== *)

Module Regex.

(** Every repetition in the five patterns is over a character class, so
    [Rep] repeats a class: [Rep p lo (Some hi)] is [[p]{lo,hi}] and
    [Rep p 1 None] is [[p]+]; both are greedy. *)
Inductive regex : Type :=
| Chr (c : ascii)                                   (* a literal *)
| Cls (p : ascii -> bool)                           (* [...] or \s, \d *)
| Rep (p : ascii -> bool) (lo : nat) (hi : option nat)
| Cat (r1 r2 : regex)
| Ahead (r : regex)                                 (* (?=r) *)
| Behind (p : ascii -> bool).                       (* (?<=[...]) *)

(** A position in the subject: the character just before it, if there is
    one, and the text from it on. *)
Definition pos : Type := option ascii * string.

Definition room (hi : option nat) : bool :=
  match hi with Some O => false | _ => true end.

Definition less (hi : option nat) : option nat :=
  match hi with Some h => Some (Nat.pred h) | None => None end.

(** The ends of [[p]{lo,hi}] from a position, the longest first. *)
Fixpoint rep (p : ascii -> bool) (lo : nat) (hi : option nat)
         (prev : option ascii) (s : string) : list pos :=
  let stop := match lo with O => [(prev, s)] | S _ => [] end in
  match s with
  | String c s' =>
      if p c && room hi
      then rep p (Nat.pred lo) (less hi) (Some c) s' ++ stop
      else stop
  | EmptyString => stop
  end.

(** The ends of the matches of [r] that start at a position, in the order
    in which the backtracking matcher of [re] finds them. *)
Fixpoint run (r : regex) (prev : option ascii) (s : string) : list pos :=
  match r with
  | Chr c =>
      match s with
      | String a s' => if Ascii.eqb a c then [(Some a, s')] else []
      | EmptyString => []
      end
  | Cls p =>
      match s with
      | String a s' => if p a then [(Some a, s')] else []
      | EmptyString => []
      end
  | Rep p lo hi => rep p lo hi prev s
  | Cat r1 r2 => flat_map (fun q => run r2 (fst q) (snd q)) (run r1 prev s)
  | Ahead r' => match run r' prev s with [] => [] | _ :: _ => [(prev, s)] end
  | Behind p =>
      match prev with
      | Some a => if p a then [(prev, s)] else []
      | None => []
      end
  end.

(** A literal word followed by [k]. *)
Fixpoint lit (w : string) (k : regex) : regex :=
  match w with
  | EmptyString => k
  | String c w' => Cat (Chr c) (lit w' k)
  end.

(** [re.split(r, s)] for a pattern without groups. The scan tries a match
    at every position from the left; a match of [S k] characters ends the
    current piece and the next [k] characters are skipped. The patterns of
    the class consume at least one character ([patterns_consume] below), the
    case of an empty match is not theirs and leaves the piece open. *)
Fixpoint split_from (r : regex) (skip : nat) (prev : option ascii) (s : string)
  : list string :=
  match s with
  | EmptyString => [EmptyString]
  | String c s' =>
      match skip with
      | S k => split_from r k (Some c) s'
      | O =>
          match run r prev s with
          | (_, rest) :: _ =>
              match (String.length s - String.length rest)%nat with
              | S k => EmptyString :: split_from r k (Some c) s'
              | O => Text.push c (split_from r O (Some c) s')
              end
          | [] => Text.push c (split_from r O (Some c) s')
          end
      end
  end.

Definition split (r : regex) (s : string) : list string := split_from r O None s.

End Regex.

(* ===================================================================== *)
(** ** The segmenter: [split_into_sections] and [chunk_by_size] *)
(* ===================================================================== *)

Import Regex.

Definition is_char (a : ascii) (c : ascii) : bool := Ascii.eqb c a.

(** [[A-Z\s&\'-]] *)
Definition heading_char (c : ascii) : bool :=
  Chars.is_upper c || Chars.is_space c
  || is_char "&" c || is_char "'" c || is_char "-" c.

(** [[.!?]] *)
Definition sentence_end (c : ascii) : bool :=
  is_char "." c || is_char "!" c || is_char "?" c.

(** [\n(?=[A-Z][A-Z\s&\'-]{5,80}\n)] *)
Definition pattern_header : regex :=
  Cat (Chr Chars.nl)
      (Ahead (Cat (Cls Chars.is_upper)
                  (Cat (Rep heading_char 5 (Some 80%nat)) (Chr Chars.nl)))).

(** [\n(?=\d+\.\s)] *)
Definition pattern_numbered : regex :=
  Cat (Chr Chars.nl)
      (Ahead (Cat (Rep Chars.is_digit 1 None)
                  (Cat (Chr ".") (Cls Chars.is_space)))).

(** [\n(?=Article\s+\d+)] *)
Definition pattern_article : regex :=
  Cat (Chr Chars.nl)
      (Ahead (lit "Article" (Cat (Rep Chars.is_space 1 None)
                                 (Rep Chars.is_digit 1 None)))).

(** [\n(?=Section\s+\d+)] *)
Definition pattern_section : regex :=
  Cat (Chr Chars.nl)
      (Ahead (lit "Section" (Cat (Rep Chars.is_space 1 None)
                                 (Rep Chars.is_digit 1 None)))).

Definition patterns : list regex :=
  [pattern_header; pattern_numbered; pattern_article; pattern_section].

(** [(?<=[.!?])\s+] *)
Definition pattern_sentence : regex :=
  Cat (Behind sentence_end) (Rep Chars.is_space 1 None).

(** [[s.strip() for s in pieces if s.strip()]] *)
Definition stripped_nonempty (pieces : list string) : list string :=
  map Text.strip
      (List.filter (fun s => negb (Text.is_empty (Text.strip s))) pieces).

(** [[s.strip() for s in text.split('\n\n') if s.strip() and len(s.strip()) > 100]] *)
Definition long_paragraphs (pieces : list string) : list string :=
  map Text.strip
      (List.filter (fun s => negb (Text.is_empty (Text.strip s))
                          && (100 <? String.length (Text.strip s))%nat) pieces).

(** [[s.strip() for s in text.split('\n') if len(s.strip()) > 200]] *)
Definition long_lines (pieces : list string) : list string :=
  map Text.strip
      (List.filter (fun s => (200 <? String.length (Text.strip s))%nat) pieces).

(** The state of the loop of [chunk_by_size]. *)
Record packing : Type := Packing {
  chunks : list string;
  current_chunk : list string;
  current_length : nat
}.

Definition pack (min_chars max_chars : nat) (st : packing) (sentence : string)
  : packing :=
  let sentence_length := String.length sentence in
  if (max_chars <? current_length st + sentence_length)%nat
     && (min_chars <=? current_length st)%nat
  then Packing (chunks st ++ [Text.join " " (current_chunk st)])
               [sentence] sentence_length
  else Packing (chunks st) (current_chunk st ++ [sentence])
               (current_length st + sentence_length + 1).

Definition nonempty {A : Type} (l : list A) : bool :=
  match l with [] => false | _ :: _ => true end.

(** [l[-1] += s] *)
Fixpoint extend_last (l : list string) (s : string) : list string :=
  match l with
  | [] => []
  | [x] => [x +:+ s]
  | x :: l' => x :: extend_last l' s
  end.

(** [TCReviewer.chunk_by_size] *)
Definition chunk_by_size (text : string) (min_chars max_chars : nat) : list string :=
  let sentences := Regex.split pattern_sentence text in
  let st := fold_left (pack min_chars max_chars) sentences (Packing [] [] 0) in
  let chunks' :=
    if nonempty (current_chunk st) && (min_chars <=? current_length st)%nat
    then chunks st ++ [Text.join " " (current_chunk st)]
    else if nonempty (current_chunk st) && nonempty (chunks st)
    then extend_last (chunks st) (" " +:+ Text.join " " (current_chunk st))
    else chunks st in
  if nonempty chunks' then chunks' else [text].

(** The [for pattern in patterns] loop with its [break]; [sections] is still
    the empty list when no pattern is taken. *)
Fixpoint first_pattern (ps : list regex) (text : string) : list string :=
  match ps with
  | [] => []
  | pattern :: ps' =>
      let potential_sections := Regex.split pattern text in
      if (5 <? length potential_sections)%nat
      then stripped_nonempty potential_sections
      else first_pattern ps' text
  end.

Definition nl2 : string := String Chars.nl (String Chars.nl EmptyString).
Definition nl1 : string := String Chars.nl EmptyString.

(** The three [if len(sections) < 5] steps that follow the loop. *)
Definition fallback (sections : list string) (text : string) : list string :=
  let sections :=
    if (length sections <? 5)%nat
    then long_paragraphs (Text.split nl2 text) else sections in
  let sections :=
    if (length sections <? 5)%nat
    then long_lines (Text.split nl1 text) else sections in
  let sections :=
    if (length sections <? 5)%nat
    then chunk_by_size text 300 2000 else sections in
  sections.

(** [TCReviewer.split_into_sections] *)
Definition split_into_sections (text : string) : list string :=
  fallback (first_pattern patterns text) text.

(* ===================================================================== *)
(** ** The review database and its file *)
(* ===================================================================== *)

(** A value of [self.reviewed_sections]: [{'status': ..., 'preview': ...}]. *)
Record review : Type := Review { status : string; preview : string }.

Global Instance review_eq_dec : EqDecision review.
Proof. solve_decision. Defined.

(** [self.reviewed_sections] is a [dict]. It is held as its mapping and,
    beside it, its keys in the order in which they were inserted: the order
    in which [items()] and [json.dump] go through a [dict]. *)

(** [db.items()] *)
Definition dict_items (db : gmap string review) (order : list string)
  : list (string * review) :=
  omap (fun k => match db !! k with
                 | Some v => Some (k, v)
                 | None => None
                 end) order.

(** The keys after [db[k] = v]: a new key goes last, a key that is there
    keeps its place. *)
Definition key_added (db : gmap string review) (order : list string)
           (k : string) : list string :=
  match db !! k with
  | Some _ => order
  | None => order ++ [k]
  end.

(** [dict(pairs)]: the pairs are assigned from left to right, so a
    repeated key keeps its first place and its last value. *)
Definition dict_of (pairs : list (string * review))
  : gmap string review * list string :=
  fold_left (fun d kv => (<[fst kv := snd kv]> (fst d),
                          key_added (fst d) (snd d) (fst kv)))
            pairs (∅, []).

Module Json.

Definition dq : ascii := "034".
Definition bs : ascii := "\".

Definition hex2 (z : Z) : string :=
  String (Sha256.hex_digit (Z.land (Z.shiftr z 4) 0xF))
         (String (Sha256.hex_digit (Z.land z 0xF)) EmptyString).

(** [ESCAPE_DCT] of [json.encoder] with [ensure_ascii=False]: the quote,
    the backslash and the control characters are escaped, nothing else. *)
Definition escape (c : ascii) : string :=
  let z := Chars.code c in
  if z =? 34 then String bs (String dq EmptyString)
  else if z =? 92 then String bs (String bs EmptyString)
  else if z =? 10 then String bs "n"
  else if z =? 13 then String bs "r"
  else if z =? 9 then String bs "t"
  else if z =? 8 then String bs "b"
  else if z =? 12 then String bs "f"
  else if z <? 32 then String bs ("u00" +:+ hex2 z)
  else String c EmptyString.

Fixpoint escape_all (s : string) : string :=
  match s with
  | EmptyString => EmptyString
  | String c s' => escape c +:+ escape_all s'
  end.

Definition encode_string (s : string) : string :=
  String dq (escape_all s +:+ String dq EmptyString).

Definition nl : string := String Chars.nl EmptyString.

(** One value of the database at indentation level 2. *)
Definition dump_review (r : review) : string :=
  "{" +:+ nl +:+ "    " +:+ encode_string "status" +:+ ": "
      +:+ encode_string (status r) +:+ "," +:+ nl
      +:+ "    " +:+ encode_string "preview" +:+ ": "
      +:+ encode_string (preview r) +:+ nl +:+ "  }".

Definition dump_item (kv : string * review) : string :=
  encode_string (fst kv) +:+ ": " +:+ dump_review (snd kv).

Fixpoint dump_items (l : list (string * review)) : string :=
  match l with
  | [] => EmptyString
  | [kv] => dump_item kv
  | kv :: l' => dump_item kv +:+ "," +:+ nl +:+ "  " +:+ dump_items l'
  end.

(** [json.dump(db, f, indent=2, ensure_ascii=False)]: the text written,
    on the items of [db] in their order. *)
Definition dump (items : list (string * review)) : string :=
  match items with
  | [] => "{}"
  | l => "{" +:+ nl +:+ "  " +:+ dump_items l +:+ nl +:+ "}"
  end.

Inductive token : Type :=
| LBrace | RBrace | Colon | Comma | Str (s : string).

Definition hex_val (c : ascii) : option Z :=
  if Chars.between 48 57 c then Some (Chars.code c - 48)
  else if Chars.between 97 102 c then Some (Chars.code c - 87)
  else if Chars.between 65 70 c then Some (Chars.code c - 55)
  else None.

(** [\uXXXX]; a code point from 256 on is no character of this model. *)
Definition unicode (a b c d : ascii) : option ascii :=
  match hex_val a, hex_val b, hex_val c, hex_val d with
  | Some x3, Some x2, Some x1, Some x0 =>
      let z := 4096 * x3 + 256 * x2 + 16 * x1 + x0 in
      if z <? 256 then Some (Chars.chr z) else None
  | _, _, _, _ => None
  end.

(** [BACKSLASH] of [json.decoder]. *)
Definition unescape (e : ascii) : option ascii :=
  let z := Chars.code e in
  if z =? 34 then Some dq
  else if z =? 92 then Some bs
  else if z =? 47 then Some "/"%char
  else if z =? 98 then Some (Chars.chr 8)
  else if z =? 102 then Some (Chars.chr 12)
  else if z =? 110 then Some (Chars.chr 10)
  else if z =? 114 then Some (Chars.chr 13)
  else if z =? 116 then Some (Chars.chr 9)
  else None.

Definition is_ws (c : ascii) : bool :=
  let z := Chars.code c in
  (z =? 32) || (z =? 9) || (z =? 10) || (z =? 13).

(** The string token being read gets one more character in front. *)
Definition grow (c : ascii) (r : option (list token)) : option (list token) :=
  match r with
  | Some (Str w :: ts) => Some (Str (String c w) :: ts)
  | _ => None
  end.

Definition emit (t : token) (r : option (list token)) : option (list token) :=
  match r with
  | Some ts => Some (t :: ts)
  | None => None
  end.

(** The scanner of [json.load] on objects and strings: [lex] between
    tokens, [lex_str] inside a string literal (strict: a raw control
    character ends the parse). [None] is [JSONDecodeError], or a value
    (number, array, literal name) that a review database does not hold. *)
Fixpoint lex (s : string) : option (list token) :=
  match s with
  | EmptyString => Some []
  | String c s' =>
      if is_ws c then lex s'
      else if Ascii.eqb c "{" then emit LBrace (lex s')
      else if Ascii.eqb c "}" then emit RBrace (lex s')
      else if Ascii.eqb c ":" then emit Colon (lex s')
      else if Ascii.eqb c "," then emit Comma (lex s')
      else if Ascii.eqb c dq then lex_str s'
      else None
  end
with lex_str (s : string) : option (list token) :=
  match s with
  | EmptyString => None
  | String c s' =>
      if Ascii.eqb c dq then emit (Str EmptyString) (lex s')
      else if Ascii.eqb c bs then
        match s' with
        | String e s'' =>
            if Ascii.eqb e "u" then
              match s'' with
              | String h3 (String h2 (String h1 (String h0 s3))) =>
                  match unicode h3 h2 h1 h0 with
                  | Some a => grow a (lex_str s3)
                  | None => None
                  end
              | _ => None
              end
            else
              match unescape e with
              | Some a => grow a (lex_str s'')
              | None => None
              end
        | EmptyString => None
        end
      else if Chars.code c <? 32 then None
      else grow c (lex_str s')
  end.

(** The members of the top-level object, in the order of the file, after
    the pairs read so far: [members] expects a key and the opening of its
    record, [fields] the fields of the record. A record holds the string
    fields [status] and [preview]. *)
Fixpoint members (pairs : list (string * review)) (ts : list token)
  : option (list (string * review)) :=
  match ts with
  | Str k :: Colon :: LBrace :: ts' => fields pairs k None None ts'
  | _ => None
  end
with fields (pairs : list (string * review)) (k : string)
            (st pv : option string) (ts : list token)
  : option (list (string * review)) :=
  match ts with
  | Str f :: Colon :: Str v :: ts' =>
      let st' := if String.eqb f "status" then Some v else st in
      let pv' := if String.eqb f "preview" then Some v else pv in
      if String.eqb f "status" || String.eqb f "preview" then
        match ts' with
        | Comma :: ts'' => fields pairs k st' pv' ts''
        | RBrace :: ts'' =>
            match st', pv' with
            | Some s, Some p =>
                let pairs' := pairs ++ [(k, Review s p)] in
                match ts'' with
                | Comma :: ts3 => members pairs' ts3
                | [RBrace] => Some pairs'
                | _ => None
                end
            | _, _ => None
            end
        | _ => None
        end
      else None
  | _ => None
  end.

(** The pairs of the object in the file, in the order of the file. *)
Definition pairs (s : string) : option (list (string * review)) :=
  match lex s with
  | Some [LBrace; RBrace] => Some []
  | Some (LBrace :: ts) => members [] ts
  | _ => None
  end.

(** [json.load(f)] on the text of the file: the [dict] of its pairs. *)
Definition load (s : string) : option (gmap string review * list string) :=
  match pairs s with
  | Some l => Some (dict_of l)
  | None => None
  end.

End Json.

(* ===================================================================== *)
(** ** The reviewer: [TCReviewer] *)
(* ===================================================================== *)

(** What [review_section] returns: ['approved'], ['disapproved'], ['skipped']. *)
Inductive choice : Type := Approved | Disapproved | Skipped.

Definition status_of (d : choice) : string :=
  match d with
  | Approved => "approved"
  | Disapproved => "disapproved"
  | Skipped => "skipped"
  end.

(** The four banners of [provide_verdict]. *)
Inductive Verdict : Type :=
| INCOMPLETE | CONTAINS_DISAPPROVED | ALL_APPROVED | NO_SECTIONS_REVIEWED.

(** The object and what it acts on: the dictionary in memory (its mapping
    and the order of its keys), the text of [self.db_file] ([None] while the
    file does not exist), the number of calls of [save_database] and the
    sections shown by [review_section], the latest first. *)
Record reviewer : Type := Reviewer {
  reviewed_sections : gmap string review;
  key_order : list string;
  db_file : option string;
  saves : nat;
  asked : list string
}.

(** [self.reviewed_sections.items()] *)
Definition items (r : reviewer) : list (string * review) :=
  dict_items (reviewed_sections r) (key_order r).

(** [TCReviewer.load_database]; [None] when [json.load] raises. *)
Definition load_database (file : option string)
  : option (gmap string review * list string) :=
  match file with
  | Some text => Json.load text
  | None => Some (∅, [])
  end.

(** [TCReviewer.__init__] *)
Definition new_reviewer (file : option string) : option reviewer :=
  match load_database file with
  | Some d => Some (Reviewer (fst d) (snd d) file 0 [])
  | None => None
  end.

(** [TCReviewer.save_database] *)
Definition save_database (r : reviewer) : reviewer :=
  Reviewer (reviewed_sections r) (key_order r) (Some (Json.dump (items r)))
           (S (saves r)) (asked r).

(** The flags of [provide_verdict]. *)
Record flags : Type := Flags {
  all_sections_reviewed : bool;
  has_disapproved : bool;
  has_approved : bool
}.

Definition look (db : gmap string review) (f : flags) (section : string) : flags :=
  let section_hash := hash_section section in
  match db !! section_hash with
  | Some r =>
      if String.eqb (status r) "disapproved"
      then Flags (all_sections_reviewed f) true (has_approved f)
      else if String.eqb (status r) "approved"
      then Flags (all_sections_reviewed f) (has_disapproved f) true
      else f
  | None => Flags false (has_disapproved f) (has_approved f)
  end.

(** [TCReviewer.provide_verdict]: the banner printed. *)
Definition provide_verdict (db : gmap string review) (sections : list string)
           (skipped_count : nat) : Verdict :=
  let f := fold_left (look db) sections (Flags true false false) in
  let all_reviewed :=
    if (0 <? skipped_count)%nat then false else all_sections_reviewed f in
  if negb all_reviewed then INCOMPLETE
  else if has_disapproved f then CONTAINS_DISAPPROVED
  else if has_approved f && negb (has_disapproved f) then ALL_APPROVED
  else NO_SECTIONS_REVIEWED.

(** One line of the loop's output: [Already reviewed: status] or
    [NEW SECTION] with the decision that followed. *)
Inductive event : Type :=
| Already (st : string)
| New (d : choice).

(** The counters of [process_tc_file] and the lines printed so far. *)
Record tally : Type := Tally {
  new_sections : nat;
  approved : nat;
  disapproved : nat;
  skipped : nat;
  already_reviewed : nat;
  printed : list event
}.

(** The summary and the verdict at the end of [process_tc_file]. *)
Record report : Type := Report {
  total : nat;
  counts : tally;
  verdict : Verdict
}.

(** The commands of [main]: a file picked and read, the database viewed, the
    database cleared with the answer typed, and a choice that does nothing
    (no file picked, an unknown choice). *)
Inductive command : Type :=
| ReviewFile (text : string)
| ViewDatabase
| ClearDatabase (confirm : string)
| Nothing.

Section Session.

(** The person at the prompt: what [review_section] returns the [n]-th
    time it is called, on the section it shows. *)
Variable prompt : nat -> string -> choice.

(** [TCReviewer.review_section] *)
Definition review_section (r : reviewer) (section : string)
  : reviewer * choice :=
  (Reviewer (reviewed_sections r) (key_order r) (db_file r) (saves r)
             (section :: asked r),
   prompt (length (asked r)) section).

(** The body of the loop of [process_tc_file]. *)
Definition review_one (st : reviewer * tally) (section : string)
  : reviewer * tally :=
  let (r, t) := st in
  let section_hash := hash_section section in
  match reviewed_sections r !! section_hash with
  | Some rec =>
      (r, Tally (new_sections t) (approved t) (disapproved t) (skipped t)
                (S (already_reviewed t)) (printed t ++ [Already (status rec)]))
  | None =>
      let (r1, d) := review_section r section in
      let r2 :=
        match d with
        | Skipped => r1
        | _ =>
            save_database
              (Reviewer (<[section_hash := Review (status_of d) (Text.take 200 section)]>
                           (reviewed_sections r1))
                        (key_added (reviewed_sections r1) (key_order r1) section_hash)
                        (db_file r1) (saves r1) (asked r1))
        end in
      let out := printed t ++ [New d] in
      (r2,
       match d with
       | Approved =>
           Tally (S (new_sections t)) (S (approved t)) (disapproved t)
                 (skipped t) (already_reviewed t) out
       | Disapproved =>
           Tally (S (new_sections t)) (approved t) (S (disapproved t))
                 (skipped t) (already_reviewed t) out
       | Skipped =>
           Tally (S (new_sections t)) (approved t) (disapproved t)
                 (S (skipped t)) (already_reviewed t) out
       end)
  end.

Definition review_all (r : reviewer) (sections : list string) : reviewer * tally :=
  fold_left review_one sections (r, Tally 0 0 0 0 0 []).

(** [TCReviewer.process_tc_file], on the text read from the file. *)
Definition process_tc_file (r : reviewer) (text : string) : reviewer * report :=
  let sections := split_into_sections text in
  let (r', t) := review_all r sections in
  (r', Report (length sections) t
              (provide_verdict (reviewed_sections r') sections (skipped t))).

(** [TCReviewer.clear_database], on the answer typed. *)
Definition clear_database (r : reviewer) (confirm : string) : reviewer :=
  if String.eqb (Text.lower confirm) "yes"
  then save_database (Reviewer ∅ [] (db_file r) (saves r) (asked r))
  else r.

(** One turn of the loop of [main]; [view_database] only prints. *)
Definition turn (r : reviewer) (c : command) : reviewer :=
  match c with
  | ReviewFile text => fst (process_tc_file r text)
  | ViewDatabase => r
  | ClearDatabase confirm => clear_database r confirm
  | Nothing => r
  end.

(** The loop of [main], from a reviewer on. *)
Definition main (r : reviewer) (cs : list command) : reviewer :=
  fold_left turn cs r.

End Session.

(* ===================================================================== *)
(** ** The console: [wrap_text], the prompt of [review_section], [view_database] *)
(* ===================================================================== *)

(** [text.split()]: the words between runs of whitespace. *)
Fixpoint str_words (s : string) : list string :=
  match s with
  | EmptyString => []
  | String c s' =>
      if Chars.is_space c then str_words s'
      else
        match s' with
        | EmptyString => [String c EmptyString]
        | String c' _ =>
            if Chars.is_space c' then String c EmptyString :: str_words s'
            else Text.push c (str_words s')
        end
  end.

Module Wrap.

(** The state of the loop of [wrap_text]. *)
Record state : Type := State {
  lines : list string;
  current_line : list string;
  current_length : nat
}.

Definition step (width : nat) (st : state) (word : string) : state :=
  let word_length := String.length word in
  let space_needed :=
    (word_length + (if nonempty (current_line st) then 1 else 0))%nat in
  if (current_length st + space_needed <=? width)%nat
  then State (lines st) (current_line st ++ [word])
             (current_length st + space_needed)
  else State (if nonempty (current_line st)
              then lines st ++ [Text.join " " (current_line st)]
              else lines st)
             [word] word_length.

(** The list [lines] at the [return]. *)
Definition wrap_lines (text : string) (width : nat) : list string :=
  let st := fold_left (step width) (str_words text) (State [] [] 0) in
  if nonempty (current_line st)
  then lines st ++ [Text.join " " (current_line st)]
  else lines st.

(** [TCReviewer.wrap_text] *)
Definition wrap_text (text : string) (width : nat) : string :=
  Text.join nl1 (wrap_lines text width).

End Wrap.

Module Console.

(** The decision a line typed at the prompt stands for, if any:
    [choice in ['a', 'd', 's']] after [.lower()]. *)
Definition read (line : string) : option choice :=
  let choice := Text.lower line in
  if String.eqb choice "a" then Some Approved
  else if String.eqb choice "d" then Some Disapproved
  else if String.eqb choice "s" then Some Skipped
  else None.

(** The [while True] loop of [TCReviewer.review_section] on the lines typed:
    the decision returned, the number of times [Invalid choice] was printed
    and the lines left; [None] when the input ends first ([EOFError]). *)
Fixpoint review_section (inputs : list string) : option (choice * nat * list string) :=
  match inputs with
  | [] => None
  | line :: rest =>
      match read line with
      | Some d => Some (d, O, rest)
      | None =>
          match review_section rest with
          | Some (d, n, rest') => Some (d, S n, rest')
          | None => None
          end
      end
  end.

(** [sum(1 for v in db.values() if v['status'] == st)] *)
Definition count_status (st : string) (db : gmap string review) : nat :=
  length (List.filter (fun kv => String.eqb (status (snd kv)) st) (map_to_list db)).

(** The summary of [TCReviewer.view_database]: [None] for
    [No sections reviewed yet.], else the total and the two counts printed.
    The listing that may follow is not modelled. *)
Definition view_database (db : gmap string review) : option (nat * nat * nat) :=
  if bool_decide (db = ∅) then None
  else Some (size db, count_status "approved" db, count_status "disapproved" db).

End Console.

(* ===================================================================== *)
(** * Specification: the notions the properties are stated with *)
(* ===================================================================== *)

Local Open Scope nat_scope.

(** Some section of the document has no record in the database. *)
Definition missing (db : gmap string review) (sections : list string) : Prop :=
  exists s, s ∈ sections /\ db !! hash_section s = None.

(** Some section of the document has a record with status [st]. *)
Definition has_status (st : string) (db : gmap string review)
           (sections : list string) : Prop :=
  exists s r, s ∈ sections /\ db !! hash_section s = Some r /\ status r = st.

(** The record a section has in the database, if it has one. *)
Definition stored (db : gmap string review) (section : string) : option review :=
  db !! hash_section section.

(** Every record of the database is a decision that is kept. *)
Definition decided (db : gmap string review) : Prop :=
  map_Forall (fun _ rec => status rec = "approved" \/ status rec = "disapproved") db.

(** The file is written whenever the dictionary changes: it does not exist
    while the dictionary is still empty, or it is the dump of the dictionary. *)
Definition in_sync (r : reviewer) : Prop :=
  (db_file r = None /\ reviewed_sections r = ∅)
  \/ db_file r = Some (Json.dump (items r)).

(** What a [dict] keeps: each key of the mapping is once in the order of
    the keys, and nothing else is. *)
Definition keyed (db : gmap string review) (order : list string) : Prop :=
  NoDup order /\ dom db = list_to_set order.

Section Trace.

Variable prompt : nat -> string -> choice.

(** The line printed for a section, and the reviewer after it. *)
Definition event_of (r : reviewer) (section : string) : event :=
  match stored (reviewed_sections r) section with
  | Some rec => Already (status rec)
  | None => New (prompt (length (asked r)) section)
  end.

(** The reviewer after one turn of the loop; the counters play no part. *)
Definition next (r : reviewer) (section : string) : reviewer :=
  fst (review_one prompt (r, Tally 0 0 0 0 0 []) section).

(** The lines printed for a list of sections, in order. *)
Fixpoint trace (r : reviewer) (sections : list string) : list event :=
  match sections with
  | [] => []
  | s :: l => event_of r s :: trace (next r s) l
  end.

(** The reviewer after the whole loop. *)
Definition finish (r : reviewer) (sections : list string) : reviewer :=
  fold_left next sections r.

(** The lines counted by [new_sections] and by the three decisions. *)
Definition is_new (e : event) : bool :=
  match e with New _ => true | Already _ => false end.

Definition is_choice (d : choice) (e : event) : bool :=
  match e, d with
  | New Approved, Approved | New Disapproved, Disapproved
  | New Skipped, Skipped => true
  | _, _ => false
  end.

Definition count_new (d : choice) (es : list event) : nat :=
  length (List.filter (is_choice d) es).

End Trace.

(** The sections for which [review_section] was called. *)
Fixpoint prompted (sections : list string) (lines : list event) : list string :=
  match sections, lines with
  | s :: l, New _ :: es => s :: prompted l es
  | _ :: l, Already _ :: es => prompted l es
  | _, _ => []
  end.

(** The tokens of the text [Json.dump] writes. *)
Definition item_tokens (kv : string * review) : list Json.token :=
  [Json.Str (fst kv); Json.Colon; Json.LBrace;
   Json.Str "status"; Json.Colon; Json.Str (status (snd kv)); Json.Comma;
   Json.Str "preview"; Json.Colon; Json.Str (preview (snd kv)); Json.RBrace].

(** The tokens of the items, a comma between two of them. *)
Fixpoint items_tokens (l : list (string * review)) : list Json.token :=
  match l with
  | [] => []
  | [kv] => item_tokens kv
  | kv :: l' => item_tokens kv ++ Json.Comma :: items_tokens l'
  end.

(** Every character of [s] is of the class [p]. *)
Fixpoint all_of (p : ascii -> bool) (s : string) : bool :=
  match s with
  | EmptyString => true
  | String c s' => p c && all_of p s'
  end.

(** The character before the position reached after [u]. *)
Fixpoint last_of (prev : option ascii) (u : string) : option ascii :=
  match u with
  | EmptyString => prev
  | String c u' => last_of (Some c) u'
  end.

(** [n] repetitions are allowed by the upper bound [hi]. *)
Definition within (hi : option nat) (n : nat) : Prop :=
  match hi with Some h => n <= h | None => True end.

(** What follows the newline at a boundary of each pattern. For a heading:
    a capital letter, 5 to 80 characters of the heading class, a newline. *)
Definition heading_follows (s : string) : Prop :=
  exists c body rest,
    s = String c (body +:+ String Chars.nl rest)
    /\ Chars.is_upper c = true /\ all_of heading_char body = true
    /\ 5 <= String.length body <= 80.

(** One or more digits, a dot, a whitespace character. *)
Definition numbered_follows (s : string) : Prop :=
  exists digits c rest,
    s = digits +:+ String "." (String c rest)
    /\ 1 <= String.length digits /\ all_of Chars.is_digit digits = true
    /\ Chars.is_space c = true.

(** The word, one or more whitespace characters, a digit. *)
Definition word_follows (word s : string) : Prop :=
  exists spaces d rest,
    s = word +:+ spaces +:+ String d rest
    /\ 1 <= String.length spaces /\ all_of Chars.is_space spaces = true
    /\ Chars.is_digit d = true.

(** [Cut follows s l]: [l] is [s] cut at every newline after which
    [follows] holds, the newline itself dropped. *)
Inductive Cut (follows : string -> Prop) : string -> list string -> Prop :=
| Cut_end : Cut follows "" [""]
| Cut_here s l :
    follows s -> Cut follows s l ->
    Cut follows (String Chars.nl s) ("" :: l)
| Cut_keep c s l :
    ~ (c = Chars.nl /\ follows s) -> Cut follows s l ->
    Cut follows (String c s) (Text.push c l).

(** The pattern at which the loop breaks. *)
Fixpoint taken (ps : list regex) (text : string) : option regex :=
  match ps with
  | [] => None
  | p :: ps' =>
      if 5 <? length (Regex.split p text) then Some p else taken ps' text
  end.

(** The first character of [s] is no whitespace. *)
Definition starts_nonspace (s : string) : Prop :=
  exists c s', s = String c s' /\ Chars.is_space c = false.

(** The test [if s.strip()] of the comprehensions. *)
Definition nonblank (s : string) : bool := negb (Text.is_empty (Text.strip s)).

(** [Sentences b s l]: [l] is [s] cut at every run of whitespace that
    comes right after one of [. ! ?], the whole run dropped; [b] tells
    whether the character before [s] is one of the three. *)
Inductive Sentences : bool -> string -> list string -> Prop :=
| Sent_end b : Sentences b "" [""]
| Sent_cut c s l :
    Chars.is_space c = true -> Sentences false (Text.lstrip s) l ->
    Sentences true (String c s) ("" :: l)
| Sent_keep b c s l :
    b = false \/ Chars.is_space c = false ->
    Sentences (sentence_end c) s l ->
    Sentences b (String c s) (Text.push c l).

(** The character before the position is one of [. ! ?]. *)
Definition is_end (prev : option ascii) : bool :=
  match prev with Some a => sentence_end a | None => false end.

(** The number of whitespace characters a string starts with. *)
Definition lead (s : string) : nat :=
  String.length s - String.length (Text.lstrip s).

(** The counter of the loop against the chunk it measures: the length of
    the chunk as it will be joined, and one more while no chunk is closed. *)
Definition measured (st : packing) : Prop :=
  match current_chunk st with
  | [] => current_length st = 0 /\ chunks st = []
  | _ :: _ =>
      current_length st
      = String.length (Text.join " " (current_chunk st))
        + (if nonempty (chunks st) then 0 else 1)
  end.


(** A section as the pattern, paragraph and line steps leave it: not empty
    and without whitespace around it. *)
Definition trimmed (s : string) : Prop := s <> "" /\ Text.strip s = s.

(** One of [0-9a-f]. *)
Definition is_hex (c : ascii) : bool :=
  Chars.between 48 57 c || Chars.between 97 102 c.

(** Every preview is at most 200 characters long. *)
Definition short_previews (db : gmap string review) : Prop :=
  map_Forall (fun _ rec => String.length (preview rec) <= 200) db.

(** A line typed at the prompt of [review_section] that is no answer. *)
Definition invalid (line : string) : Prop := Console.read line = None.

(** A word of [text.split()]: not empty, no whitespace in it. *)
Definition is_word (w : string) : Prop :=
  w <> "" /\ all_of (fun c => negb (Chars.is_space c)) w = true.

(** The empty text, or a text that starts with whitespace: what may follow
    a word. *)
Definition word_end (rest : string) : Prop :=
  rest = "" \/ exists c r, rest = String c r /\ Chars.is_space c = true.

(** What the loop of [wrap_text] keeps: the lines closed so far are groups
    of the words read, in order; each fits the width or is one word; the
    counter is the length of the line being filled. *)
Definition wrapped (width : nat) (done : list string) (st : Wrap.state) : Prop :=
  exists groups,
    Wrap.lines st = map (Text.join " ") groups
    /\ concat groups ++ Wrap.current_line st = done
    /\ Forall (fun g => g <> []
                        /\ (String.length (Text.join " " g) <= width
                            \/ exists w, g = [w])) groups
    /\ match Wrap.current_line st with
       | [] => Wrap.current_length st = 0
       | _ :: _ =>
           Wrap.current_length st
           = String.length (Text.join " " (Wrap.current_line st))
           /\ (Wrap.current_length st <= width
               \/ exists w, Wrap.current_line st = [w])
       end.

(** The words of a list of texts, in order. *)
Definition words_of (l : list string) : list string := concat (map str_words l).

(** The text starts with a character that is no whitespace. *)
Definition starts_word (s : string) : bool :=
  match s with
  | EmptyString => false
  | String c _ => negb (Chars.is_space c)
  end.

(** The first chunk has reached the minimum but for one character, the
    chunks after it have reached it. *)
Definition reached (min_chars : nat) (l : list string) : Prop :=
  match l with
  | [] => True
  | first :: others =>
      min_chars - 1 <= String.length first
      /\ Forall (fun chunk => min_chars <= String.length chunk) others
  end.

(** What the loop of [chunk_by_size] keeps: the chunks closed so far are
    runs of the sentences read, in order, each joined by single spaces; no
    run is empty when the minimum is positive, and the chunks have reached
    the minimum. *)
Definition grouped (min_chars : nat) (done : list string) (st : packing) : Prop :=
  exists groups,
    chunks st = map (Text.join " ") groups
    /\ concat groups ++ current_chunk st = done
    /\ (0 < min_chars -> Forall (fun g => g <> []) groups)
    /\ reached min_chars (chunks st).

(** ** Sample inputs *)

(** A text that the heading pattern cuts into six pieces. *)
Definition six_headings : string :=
  "intro" +:+ nl1 +:+ "HEADER" +:+ nl1 +:+ "one"
          +:+ nl1 +:+ "HEADER" +:+ nl1 +:+ "two"
          +:+ nl1 +:+ "HEADER" +:+ nl1 +:+ "three"
          +:+ nl1 +:+ "HEADER" +:+ nl1 +:+ "four"
          +:+ nl1 +:+ "HEADER" +:+ nl1 +:+ "five".

(** A database with an approved and a disapproved section. *)
Definition sample_db : gmap string review :=
  <[hash_section "a" := Review "approved" "a"]>
    (<[hash_section "b" := Review "disapproved" "b"]> ∅).

(** The keys of the sample database: [b] was inserted first. *)
Definition sample_keys : list string := [hash_section "b"; hash_section "a"].

(** The reviewer of a first run. *)
Definition fresh : reviewer := Reviewer ∅ [] None 0 [].

(** [s * n] *)
Fixpoint times (n : nat) (s : string) : string :=
  match n with
  | O => EmptyString
  | S n' => s +:+ times n' s
  end.

(** Five paragraphs of 101 letters, separated by blank lines. *)
Definition five_paragraphs : string :=
  Text.join nl2 (repeat (times 101 "x") 5).

(* ===================================================================== *)
(** * Verification *)
(* ===================================================================== *)

Local Arguments String.append !_ _ / : simpl nomatch.

(** ** Test vectors *)

(** Test vectors of FIPS 180-4 and of the spec. *)
Example sha256_empty :
  Sha256.hexdigest [] = "e3b0c44298fc1c149afbf4c8996fb92427ae41e4649b934ca495991b7852b855".
Proof. vm_compute. reflexivity. Qed.

Example sha256_abc :
  Sha256.hexdigest (Sha256.utf8 "abc")
  = "ba7816bf8f01cfea414140de5dae2223b00361a396177a9cb410ff61f20015ad".
Proof. vm_compute. reflexivity. Qed.

Example sha256_two_blocks :
  Sha256.hexdigest (Sha256.utf8 "abcdbcdecdefdefgefghfghighijhijkijkljklmklmnlmnomnopnopq")
  = "248d6a61d20638b8e5c026930c3e6039a33ce45964ff2167f6ecedd419db06c1".
Proof. vm_compute. reflexivity. Qed.

(** ** Strings *)

Lemma app_assoc_s (a b c : string) : (a +:+ b) +:+ c = a +:+ (b +:+ c).
Proof. induction a as [|x a IH]; [reflexivity|]. cbn. by rewrite IH. Qed.

Lemma app_nil_s (a : string) : a +:+ "" = a.
Proof. induction a as [|x a IH]; [reflexivity|]. cbn. by rewrite IH. Qed.

Lemma length_app_s (a b : string) :
  String.length (a +:+ b) = String.length a + String.length b.
Proof. induction a as [|x a IH]; [reflexivity|]. cbn. by rewrite IH. Qed.

Lemma is_empty_true (s : string) : Text.is_empty s = true -> s = "".
Proof. by destruct s. Qed.

(** ** Normalisation before hashing *)

Lemma lower_space (c : ascii) : Chars.is_space (Chars.lower c) = Chars.is_space c.
Proof. destruct c as [[] [] [] [] [] [] [] []]; reflexivity. Qed.

Lemma lower_lower_char (c : ascii) : Chars.lower (Chars.lower c) = Chars.lower c.
Proof. destruct c as [[] [] [] [] [] [] [] []]; reflexivity. Qed.

Lemma lower_idem (s : string) : Text.lower (Text.lower s) = Text.lower s.
Proof.
  induction s as [|c s IH]; [reflexivity|].
  cbn. by rewrite lower_lower_char, IH.
Qed.

Lemma lower_is_empty (s : string) : Text.is_empty (Text.lower s) = Text.is_empty s.
Proof. by destruct s. Qed.

Lemma lower_lstrip (s : string) : Text.lower (Text.lstrip s) = Text.lstrip (Text.lower s).
Proof.
  induction s as [|c s IH]; [reflexivity|].
  cbn. rewrite lower_space. by destruct (Chars.is_space c).
Qed.

Lemma lower_rstrip (s : string) : Text.lower (Text.rstrip s) = Text.rstrip (Text.lower s).
Proof.
  induction s as [|c s IH]; [reflexivity|].
  cbn. rewrite lower_space, <- IH, lower_is_empty.
  by destruct (Chars.is_space c && Text.is_empty (Text.rstrip s))%bool.
Qed.

Lemma lower_strip (s : string) : Text.lower (Text.strip s) = Text.strip (Text.lower s).
Proof. unfold Text.strip. by rewrite lower_rstrip, lower_lstrip. Qed.

Lemma lstrip_idem (s : string) : Text.lstrip (Text.lstrip s) = Text.lstrip s.
Proof.
  induction s as [|c s IH]; [reflexivity|].
  cbn. destruct (Chars.is_space c) eqn:E; [done|]. cbn. by rewrite E.
Qed.

Lemma rstrip_idem (s : string) : Text.rstrip (Text.rstrip s) = Text.rstrip s.
Proof.
  induction s as [|c s IH]; [reflexivity|].
  cbn. destruct (Chars.is_space c && Text.is_empty (Text.rstrip s))%bool eqn:E; [done|].
  cbn. by rewrite IH, E.
Qed.

Lemma lstrip_rstrip (s : string) :
  Text.lstrip (Text.rstrip s) = Text.rstrip (Text.lstrip s).
Proof.
  induction s as [|c s IH]; [reflexivity|].
  cbn. destruct (Chars.is_space c) eqn:E; cbn.
  - destruct (Text.is_empty (Text.rstrip s)) eqn:E'.
    + rewrite <- IH. by rewrite (is_empty_true _ E').
    + cbn. by rewrite E.
  - by rewrite E.
Qed.

Lemma strip_idem (s : string) : Text.strip (Text.strip s) = Text.strip s.
Proof.
  unfold Text.strip.
  by rewrite lstrip_rstrip, lstrip_idem, rstrip_idem.
Qed.

(** The normal form of [hash_section] is a fixed point of the normalisation. *)
Lemma normalized_fixed (s : string) :
  Text.lower (Text.strip (Text.lower (Text.strip s))) = Text.lower (Text.strip s).
Proof. by rewrite <- lower_strip, strip_idem, lower_idem. Qed.

(** C5. [hash_section] is a function of the stripped, lowercased text: the
    fingerprint of every string is the fingerprint of its normal form, so
    [" Foo "] and ["foo"] have one fingerprint; whitespace inside the text is
    kept, and ["Foo\nBar"] and ["foo bar"] have different fingerprints. *)
Theorem hash_section_normalizes :
  (forall s : string, hash_section (Text.lower (Text.strip s)) = hash_section s)
  /\ hash_section " Foo " = hash_section "foo"
  /\ hash_section ("Foo" +:+ String Chars.nl "Bar") <> hash_section "foo bar".
Proof.
  split; [|split].
  - intros s. unfold hash_section. by rewrite normalized_fixed.
  - vm_compute. reflexivity.
  - vm_compute. discriminate.
Qed.

(** C9. The empty text is one section, the empty string: no pattern splits
    it, no paragraph or line is long enough, and [chunk_by_size] returns the
    text itself. Its fingerprint is the digest of the empty message. *)
Theorem empty_text_one_section :
  split_into_sections "" = [""]
  /\ hash_section ""
     = "e3b0c44298fc1c149afbf4c8996fb92427ae41e4649b934ca495991b7852b855".
Proof. split; vm_compute; reflexivity. Qed.

(** ** The verdict *)

Lemma missing_cons db s l :
  missing db (s :: l) <-> db !! hash_section s = None \/ missing db l.
Proof.
  unfold missing. split.
  - intros (x & Hx & Hn). apply elem_of_cons in Hx as [->|Hx]; eauto.
  - intros [Hn|(x & Hx & Hn)]; [exists s|exists x]; split; auto; set_solver.
Qed.

Lemma has_status_cons st db s l :
  has_status st db (s :: l)
  <-> (exists r, db !! hash_section s = Some r /\ status r = st) \/ has_status st db l.
Proof.
  unfold has_status. split.
  - intros (x & r & Hx & Hr & Hs). apply elem_of_cons in Hx as [->|Hx]; eauto 6.
  - intros [(r & Hr & Hs)|(x & r & Hx & Hr & Hs)];
      [exists s, r|exists x, r]; split_and!; auto; set_solver.
Qed.

Lemma missing_nil db : ~ missing db [].
Proof. intros (x & Hx & _). set_solver. Qed.

Lemma has_status_nil st db : ~ has_status st db [].
Proof. intros (x & r & Hx & _). set_solver. Qed.

Lemma look_flags db sections f :
  let g := fold_left (look db) sections f in
  (all_sections_reviewed g = false
   <-> all_sections_reviewed f = false \/ missing db sections)
  /\ (has_disapproved g = true
      <-> has_disapproved f = true \/ has_status "disapproved" db sections)
  /\ (has_approved g = true
      <-> has_approved f = true \/ has_status "approved" db sections).
Proof.
  revert f. induction sections as [|s l IH]; intros f; cbn.
  - pose proof (missing_nil db). pose proof (has_status_nil "disapproved" db).
    pose proof (has_status_nil "approved" db). tauto.
  - destruct (IH (look db f s)) as (Ha & Hd & Hp). cbn in Ha, Hd, Hp.
    rewrite Ha, Hd, Hp, missing_cons, !has_status_cons. clear IH Ha Hd Hp.
    unfold look. destruct (db !! hash_section s) as [r|] eqn:Hr.
    + assert (Hone : forall st, (exists r', Some r = Some r' /\ status r' = st)
                                <-> status r = st).
      { intros st. split; [intros (r' & [= <-] & Hs); exact Hs|eauto]. }
      rewrite !Hone.
      assert (Hnone : Some r = None <-> False) by (split; [discriminate|tauto]).
      rewrite Hnone.
      destruct (String.eqb_spec (status r) "disapproved") as [E1|E1];
        [|destruct (String.eqb_spec (status r) "approved") as [E2|E2]]; cbn.
      * rewrite E1. split_and!; [tauto|tauto|].
        split; [tauto|]. intros [H|[H|H]]; [tauto|discriminate|tauto].
      * rewrite E2. split_and!; [tauto| |tauto].
        split; [tauto|]. intros [H|[H|H]]; [tauto|discriminate|tauto].
      * tauto.
    + assert (Hone : forall st, (exists r', None = Some r' /\ status r' = st)
                                <-> False).
      { intros st. split; [intros (r' & [=] & _)|tauto]. }
      rewrite !Hone. cbn. tauto.
Qed.

(** C2. The verdict of a document is decided in this order: incomplete when
    a section has no record in the database or a section was skipped in this
    run; otherwise disapproved when a section's record says so; otherwise
    approved when a section's record says so; otherwise nothing reviewed.
    Hence approved with disapproved gives [CONTAINS_DISAPPROVED], approved
    with approved [ALL_APPROVED], approved with a missing record
    [INCOMPLETE], and one skip with every record approved [INCOMPLETE]. *)
Theorem verdict_precedence (db : gmap string review) (sections : list string)
        (skipped_count : nat) :
  let v := provide_verdict db sections skipped_count in
  let incomplete := missing db sections \/ 0 < skipped_count in
  let some_disapproved := has_status "disapproved" db sections in
  let some_approved := has_status "approved" db sections in
  (v = INCOMPLETE <-> incomplete)
  /\ (v = CONTAINS_DISAPPROVED <-> ~ incomplete /\ some_disapproved)
  /\ (v = ALL_APPROVED <-> ~ incomplete /\ ~ some_disapproved /\ some_approved)
  /\ (v = NO_SECTIONS_REVIEWED
      <-> ~ incomplete /\ ~ some_disapproved /\ ~ some_approved)
  /\ (forall s1 s2 p1 p2,
        sections = [s1; s2] -> skipped_count = 0 ->
        db !! hash_section s1 = Some (Review "approved" p1) ->
        (db !! hash_section s2 = Some (Review "disapproved" p2)
         -> v = CONTAINS_DISAPPROVED)
        /\ (db !! hash_section s2 = Some (Review "approved" p2)
            -> v = ALL_APPROVED)
        /\ (db !! hash_section s2 = None -> v = INCOMPLETE))
  /\ (skipped_count = 1 ->
      Forall (fun s => exists p, db !! hash_section s = Some (Review "approved" p))
             sections ->
      v = INCOMPLETE).
Proof.
  intros v incomplete some_disapproved some_approved.
  destruct (look_flags db sections (Flags true false false)) as (Ha & Hd & Hp).
  cbn in Ha, Hd, Hp.
  assert (Hv : v = provide_verdict db sections skipped_count) by reflexivity.
  clearbody v. unfold provide_verdict in Hv.
  set (g := fold_left (look db) sections (Flags true false false)) in *.
  pose proof (Nat.ltb_lt 0 skipped_count) as Hs.
  assert (E : (v = INCOMPLETE <-> incomplete)
              /\ (v = CONTAINS_DISAPPROVED <-> ~ incomplete /\ some_disapproved)
              /\ (v = ALL_APPROVED
                  <-> ~ incomplete /\ ~ some_disapproved /\ some_approved)
              /\ (v = NO_SECTIONS_REVIEWED
                  <-> ~ incomplete /\ ~ some_disapproved /\ ~ some_approved)).
  { subst incomplete some_disapproved some_approved.
    destruct (0 <? skipped_count), (all_sections_reviewed g),
      (has_disapproved g), (has_approved g); cbn in Hv; subst v;
      split_and!; (split; [try discriminate; intros _|try tauto]);
      try tauto.
    all: intuition (first [discriminate | lia | congruence | eauto]). }
  destruct E as (E1 & E2 & E3 & E4).
  split_and!; try assumption.
  - intros s1 s2 p1 p2 -> -> H1.
    assert (Hm : forall x, db !! hash_section s2 = Some x ->
                           ~ (missing db [s1; s2] \/ 0 < 0)).
    { intros x H2 [(s & Hin & Hn)|Hlt]; [|lia].
      rewrite !elem_of_cons, elem_of_nil in Hin.
      destruct Hin as [->|[->|[]]]; congruence. }
    split_and!; intros H2.
    + apply E2. split; [by eapply Hm|].
      exists s2, (Review "disapproved" p2).
      rewrite !elem_of_cons. auto.
    + apply E3. split_and!; [by eapply Hm| |].
      * intros (s & r & Hin & Hr & Hst).
        rewrite !elem_of_cons, elem_of_nil in Hin.
        destruct Hin as [->|[->|[]]]; simplify_eq.
      * exists s1, (Review "approved" p1).
        rewrite !elem_of_cons. auto.
    + apply E1. left. exists s2. rewrite !elem_of_cons. auto.
  - intros -> _. apply E1. right. lia.
Qed.

(** ** The loop of [process_tc_file] *)

Local Arguments hash_section : simpl never.
Local Arguments split_into_sections : simpl never.
Local Arguments Json.dump : simpl never.
Local Arguments Text.take : simpl never.

Section Loop.

Variable prompt : nat -> string -> choice.

Lemma review_one_known r t s rec :
  stored (reviewed_sections r) s = Some rec ->
  review_one prompt (r, t) s
  = (r, Tally (new_sections t) (approved t) (disapproved t) (skipped t)
              (S (already_reviewed t)) (printed t ++ [Already (status rec)])).
Proof. unfold stored, review_one. by intros ->. Qed.

Lemma review_one_fst r t s : fst (review_one prompt (r, t) s) = next prompt r s.
Proof.
  unfold next, review_one.
  destruct (reviewed_sections r !! hash_section s); [done|].
  cbn. by destruct (prompt (length (asked r)) s).
Qed.

Lemma review_one_printed r t s :
  printed (snd (review_one prompt (r, t) s)) = printed t ++ [event_of prompt r s].
Proof.
  unfold event_of, stored, review_one.
  destruct (reviewed_sections r !! hash_section s); [done|].
  cbn. by destruct (prompt (length (asked r)) s).
Qed.

Lemma next_known r s rec :
  stored (reviewed_sections r) s = Some rec -> next prompt r s = r.
Proof. intros H. unfold next. by rewrite (review_one_known _ _ _ _ H). Qed.

(** A new section: the prompt is shown; a decision other than a skip is
    stored under the fingerprint and the file is rewritten. *)
Lemma next_new r s :
  stored (reviewed_sections r) s = None ->
  next prompt r s =
  match prompt (length (asked r)) s with
  | Skipped =>
      Reviewer (reviewed_sections r) (key_order r) (db_file r) (saves r)
               (s :: asked r)
  | d =>
      let db := <[hash_section s := Review (status_of d) (Text.take 200 s)]>
                  (reviewed_sections r) in
      let order := key_order r ++ [hash_section s] in
      Reviewer db order (Some (Json.dump (dict_items db order))) (S (saves r))
               (s :: asked r)
  end.
Proof.
  unfold stored, next, review_one. intros E. rewrite E. cbn.
  unfold key_added. rewrite E.
  by destruct (prompt (length (asked r)) s).
Qed.

Lemma fold_review_one sections r t :
  fst (fold_left (review_one prompt) sections (r, t)) = finish prompt r sections
  /\ printed (snd (fold_left (review_one prompt) sections (r, t)))
     = printed t ++ trace prompt r sections.
Proof.
  revert r t. induction sections as [|s l IH]; intros r t.
  - cbn. by rewrite app_nil_r.
  - change (fold_left (review_one prompt) (s :: l) (r, t))
      with (fold_left (review_one prompt) l (review_one prompt (r, t) s)).
    pose proof (review_one_fst r t s) as H1.
    pose proof (review_one_printed r t s) as H2.
    destruct (review_one prompt (r, t) s) as [r1 t1].
    cbn in H1, H2. subst r1.
    destruct (IH (next prompt r s) t1) as [Ha Hb].
    rewrite Ha, Hb, H2. split; [reflexivity|].
    by rewrite <- app_assoc.
Qed.

Lemma trace_length r sections : length (trace prompt r sections) = length sections.
Proof. revert r. induction sections; intros; cbn; auto. Qed.



(** Records are never changed or removed by the loop. *)
Lemma next_keeps r s k rec :
  reviewed_sections r !! k = Some rec ->
  reviewed_sections (next prompt r s) !! k = Some rec.
Proof.
  intros H. destruct (stored (reviewed_sections r) s) as [rec'|] eqn:E.
  - by rewrite (next_known _ _ _ E).
  - rewrite (next_new _ _ E).
    assert (hash_section s <> k)
      by (intros Hk; unfold stored in E; rewrite Hk in E; congruence).
    destruct (prompt (length (asked r)) s); cbn; auto;
      by rewrite lookup_insert_ne.
Qed.

Lemma finish_keeps sections : forall r k rec,
  reviewed_sections r !! k = Some rec ->
  reviewed_sections (finish prompt r sections) !! k = Some rec.
Proof.
  induction sections as [|s l IH]; intros r k rec H; [done|].
  cbn. apply IH. by apply next_keeps.
Qed.



(** When every section has its record the loop changes nothing. *)
Lemma finish_all_known sections r :
  Forall (fun s => is_Some (stored (reviewed_sections r) s)) sections ->
  finish prompt r sections = r
  /\ trace prompt r sections
     = map (fun s => Already (from_option status "" (stored (reviewed_sections r) s)))
           sections.
Proof.
  induction sections as [|s l IH]; intros Hall; [done|].
  inversion Hall as [|? ? [rec Hs] Hl]; subst. cbn.
  rewrite (next_known _ _ _ Hs). destruct (IH Hl) as [Hf ->].
  split; [exact Hf|]. unfold event_of. by rewrite Hs.
Qed.

(** The counters follow the lines printed. *)
Lemma fold_review_one_counts sections r t :
  let t' := snd (fold_left (review_one prompt) sections (r, t)) in
  let es := trace prompt r sections in
  new_sections t' = new_sections t + length (List.filter is_new es)
  /\ already_reviewed t' = already_reviewed t + length (List.filter (fun e => negb (is_new e)) es)
  /\ approved t' = approved t + count_new Approved es
  /\ disapproved t' = disapproved t + count_new Disapproved es
  /\ skipped t' = skipped t + count_new Skipped es.
Proof.
  revert r t. induction sections as [|s l IH]; intros r t.
  - unfold count_new. cbn. lia.
  - change (fold_left (review_one prompt) (s :: l) (r, t))
      with (fold_left (review_one prompt) l (review_one prompt (r, t) s)).
    pose proof (review_one_fst r t s) as H1.
    destruct (review_one prompt (r, t) s) as [r1 t1] eqn:E.
    cbn in H1. subst r1.
    specialize (IH (next prompt r s) t1). cbv zeta in IH.
    destruct IH as (I1 & I2 & I3 & I4 & I5).
    cbv zeta. rewrite I1, I2, I3, I4, I5. clear I1 I2 I3 I4 I5.
    change (trace prompt r (s :: l)) with (event_of prompt r s :: trace prompt (next prompt r s) l).
    unfold review_one, event_of, stored, count_new in *.
    destruct (reviewed_sections r !! hash_section s).
    + injection E as _ <-. cbn. split_and!; lia.
    + cbn in E. destruct (prompt (length (asked r)) s);
        injection E as _ <-; cbn; split_and!; lia.
Qed.

(** The loop keeps the database decided and the file in sync. *)
Lemma next_decided r s : decided (reviewed_sections r) -> decided (reviewed_sections (next prompt r s)).
Proof.
  intros H. destruct (stored (reviewed_sections r) s) as [rec'|] eqn:E.
  - by rewrite (next_known _ _ _ E).
  - rewrite (next_new _ _ E).
    destruct (prompt (length (asked r)) s); cbn; auto;
      apply map_Forall_insert_2; auto.
Qed.

Lemma next_in_sync r s : in_sync r -> in_sync (next prompt r s).
Proof.
  intros H. destruct (stored (reviewed_sections r) s) as [rec'|] eqn:E.
  - by rewrite (next_known _ _ _ E).
  - rewrite (next_new _ _ E).
    destruct (prompt (length (asked r)) s); unfold in_sync; cbn; auto.
Qed.

Lemma finish_invariant sections : forall r,
  decided (reviewed_sections r) /\ in_sync r ->
  decided (reviewed_sections (finish prompt r sections)) /\ in_sync (finish prompt r sections).
Proof.
  induction sections as [|s l IH]; intros r [H1 H2]; [done|].
  cbn. apply IH. split; [by apply next_decided|by apply next_in_sync].
Qed.

Lemma process_fst r text :
  fst (process_tc_file prompt r text) = finish prompt r (split_into_sections text).
Proof.
  unfold process_tc_file, review_all.
  destruct (fold_review_one (split_into_sections text) r (Tally 0 0 0 0 0 [])) as [H _].
  by destruct (fold_left _ _ _).
Qed.

Lemma turn_invariant r c :
  decided (reviewed_sections r) /\ in_sync r ->
  decided (reviewed_sections (turn prompt r c)) /\ in_sync (turn prompt r c).
Proof.
  intros H. destruct c as [text| |confirm|]; cbn; auto.
  - rewrite process_fst. by apply finish_invariant.
  - unfold clear_database. destruct (String.eqb _ _); [|done].
    split; [apply map_Forall_empty|]. right. reflexivity.
Qed.

Lemma main_invariant cs : forall r,
  decided (reviewed_sections r) /\ in_sync r ->
  decided (reviewed_sections (main prompt r cs)) /\ in_sync (main prompt r cs).
Proof.
  induction cs as [|c cs IH]; intros r H; [done|].
  cbn. apply IH. by apply turn_invariant.
Qed.

End Loop.

Lemma finish_asked prompt sections : forall r,
  asked (finish prompt r sections)
  = rev (prompted sections (trace prompt r sections)) ++ asked r.
Proof.
  induction sections as [|s l IH]; intros r; [done|].
  change (finish prompt r (s :: l)) with (finish prompt (next prompt r s) l).
  rewrite IH. cbn [trace]. unfold event_of.
  destruct (stored (reviewed_sections r) s) as [rec|] eqn:E.
  - by rewrite (next_known _ _ _ _ E).
  - rewrite (next_new _ _ _ E). cbn [prompted rev].
    rewrite <- app_assoc.
    by destruct (prompt (length (asked r)) s).
Qed.

Lemma review_all_spec prompt r sections :
  fst (review_all prompt r sections) = finish prompt r sections
  /\ printed (snd (review_all prompt r sections)) = trace prompt r sections.
Proof. apply (fold_review_one prompt sections r (Tally 0 0 0 0 0 [])). Qed.

(** C3. Whatever is typed, from an empty database on: every record of the
    dictionary is an approval or a disapproval, never a skip, and the file,
    once written, is the dump of that dictionary. A section that is skipped
    changes neither the dictionary nor the file and calls [save_database]
    no more than before; a change of the dictionary is the insertion of
    the record of an approval or a disapproval, saved at once. *)
Theorem database_never_skipped (prompt : nat -> string -> choice)
        (cs : list command) :
  let r := main prompt (Reviewer ∅ [] None 0 []) cs in
  new_reviewer None = Some (Reviewer ∅ [] None 0 [])
  /\ map_Forall (fun _ rec => status rec <> "skipped"
                   /\ (status rec = "approved" \/ status rec = "disapproved"))
                (reviewed_sections r)
  /\ ((db_file r = None /\ reviewed_sections r = ∅)
      \/ db_file r = Some (Json.dump (items r)))
  /\ (forall r0 t s,
        let r1 := fst (review_one prompt (r0, t) s) in
        reviewed_sections r0 !! hash_section s = None ->
        prompt (length (asked r0)) s = Skipped ->
        reviewed_sections r1 = reviewed_sections r0
        /\ db_file r1 = db_file r0 /\ saves r1 = saves r0)
  /\ (forall r0 t s,
        let r1 := fst (review_one prompt (r0, t) s) in
        reviewed_sections r1 <> reviewed_sections r0 \/ saves r1 <> saves r0 ->
        exists d, (d = Approved \/ d = Disapproved)
          /\ prompt (length (asked r0)) s = d
          /\ reviewed_sections r1
             = <[hash_section s := Review (status_of d) (Text.take 200 s)]>
                 (reviewed_sections r0)
          /\ db_file r1 = Some (Json.dump (items r1))
          /\ saves r1 = S (saves r0)).
Proof.
  intros r.
  destruct (main_invariant prompt cs (Reviewer ∅ [] None 0 [])) as [Hd Hs].
  { split; [apply map_Forall_empty|]. by left. }
  split_and!.
  - reflexivity.
  - intros k rec Hk. specialize (Hd k rec Hk). cbn in Hd.
    split; [|exact Hd]. destruct Hd as [-> | ->]; discriminate.
  - exact Hs.
  - intros r0 t s r1 Hn Hp. subst r1. rewrite review_one_fst.
    rewrite (next_new prompt r0 s Hn), Hp. done.
  - intros r0 t s r1 Hch. subst r1. rewrite review_one_fst in *.
    destruct (stored (reviewed_sections r0) s) as [rec|] eqn:E.
    + rewrite (next_known _ _ _ _ E) in Hch. by destruct Hch.
    + rewrite (next_new _ _ _ E) in *.
      destruct (prompt (length (asked r0)) s) eqn:Hp; cbn in *.
      * exists Approved. split_and!; auto.
      * exists Disapproved. split_and!; auto.
      * by destruct Hch.
Qed.

(** C7. When every section of the text already has its record, processing
    the text changes nothing: the reviewer is the same afterwards (same
    dictionary, same file, no call of [save_database], no prompt), every
    line is [Already reviewed] with the stored status, and the summary
    counts all sections as already reviewed and none as new. *)
Theorem reprocessing_writes_nothing (prompt : nat -> string -> choice)
        (r : reviewer) (text : string) :
  Forall (fun s => is_Some (reviewed_sections r !! hash_section s))
         (split_into_sections text) ->
  let sections := split_into_sections text in
  let r' := fst (process_tc_file prompt r text) in
  let rep := snd (process_tc_file prompt r text) in
  r' = r
  /\ saves r' = saves r /\ asked r' = asked r
  /\ reviewed_sections r' = reviewed_sections r
  /\ total rep = length sections
  /\ already_reviewed (counts rep) = total rep
  /\ new_sections (counts rep) = 0
  /\ approved (counts rep) = 0 /\ disapproved (counts rep) = 0
  /\ skipped (counts rep) = 0
  /\ printed (counts rep)
     = map (fun s => Already (from_option status ""
                                (reviewed_sections r !! hash_section s))) sections
  /\ verdict rep = provide_verdict (reviewed_sections r) sections 0.
Proof.
  intros Hall sections r' rep.
  destruct (finish_all_known prompt sections r Hall) as [Hf Ht].
  assert (Hr : r' = r) by (subst r'; by rewrite process_fst).
  pose proof (fold_review_one_counts prompt sections r (Tally 0 0 0 0 0 []))
    as Hc. cbv zeta in Hc.
  destruct (review_all_spec prompt r sections) as [Ha Hb].
  subst r' rep. unfold process_tc_file in *. fold sections in Hr |- *.
  unfold review_all in *.
  destruct (fold_left (review_one prompt) sections (r, Tally 0 0 0 0 0 []))
    as [r1 t1]. cbn in *. subst r1.
  destruct Hc as (C1 & C2 & C3 & C4 & C5). rewrite Ht in *.
  assert (Hnone : forall f : event -> bool,
            (forall st, f (Already st) = false) ->
            length (List.filter f
              (map (fun s => Already (from_option status ""
                      (stored (reviewed_sections r) s))) sections)) = 0).
  { intros f Hf'. clear -Hf'. induction sections as [|s l IH]; [done|].
    cbn. by rewrite Hf'. }
  assert (Hall' : length (List.filter (fun e => negb (is_new e))
              (map (fun s => Already (from_option status ""
                      (stored (reviewed_sections r) s))) sections))
                  = length sections).
  { clear. induction sections as [|s l IH]; [done|]. cbn. by rewrite IH. }
  unfold count_new in *.
  rewrite Hnone in C1 by done. rewrite Hall' in C2.
  rewrite Hnone in C3 by (by intros). rewrite Hnone in C4 by (by intros).
  rewrite Hnone in C5 by (by intros).
  split_and!; try done; try lia.
  by rewrite C5.
Qed.


(** ** The file of the database: [json.dump] then [json.load] *)

Local Arguments Json.encode_string : simpl never.
Local Arguments Json.escape_all : simpl never.

Lemma lex_str_escape (c : ascii) (tail : string) :
  Json.lex_str (Json.escape c +:+ tail) = Json.grow c (Json.lex_str tail).
Proof. destruct c as [[] [] [] [] [] [] [] []]; reflexivity. Qed.

Lemma grow_emit (c : ascii) (w : string) (r : option (list Json.token)) :
  Json.grow c (Json.emit (Json.Str w) r) = Json.emit (Json.Str (String c w)) r.
Proof. by destruct r. Qed.

Lemma lex_str_body (w rest : string) :
  Json.lex_str (Json.escape_all w +:+ String Json.dq rest)
  = Json.emit (Json.Str w) (Json.lex rest).
Proof.
  induction w as [|c w IH]; [reflexivity|].
  change (Json.escape_all (String c w))
    with (Json.escape c +:+ Json.escape_all w).
  by rewrite app_assoc_s, lex_str_escape, IH, grow_emit.
Qed.

Lemma lex_encode (w rest : string) :
  Json.lex (Json.encode_string w +:+ rest)
  = Json.emit (Json.Str w) (Json.lex rest).
Proof.
  unfold Json.encode_string.
  change (String Json.dq (Json.escape_all w +:+ String Json.dq "") +:+ rest)
    with (String Json.dq ((Json.escape_all w +:+ String Json.dq "") +:+ rest)).
  rewrite app_assoc_s.
  change (String Json.dq "" +:+ rest) with (String Json.dq rest).
  rewrite <- lex_str_body. reflexivity.
Qed.

Lemma app_cons_s (c : ascii) (a b : string) :
  String c a +:+ b = String c (a +:+ b).
Proof. reflexivity. Qed.

Lemma app_nil_l_s (b : string) : "" +:+ b = b.
Proof. reflexivity. Qed.

Lemma lex_space (s : string) : Json.lex (String " " s) = Json.lex s.
Proof. reflexivity. Qed.

Lemma lex_newline (s : string) : Json.lex (String Chars.nl s) = Json.lex s.
Proof. reflexivity. Qed.

Lemma lex_lbrace (s : string) :
  Json.lex (String "{" s) = Json.emit Json.LBrace (Json.lex s).
Proof. reflexivity. Qed.

Lemma lex_rbrace (s : string) :
  Json.lex (String "}" s) = Json.emit Json.RBrace (Json.lex s).
Proof. reflexivity. Qed.

Lemma lex_colon (s : string) :
  Json.lex (String ":" s) = Json.emit Json.Colon (Json.lex s).
Proof. reflexivity. Qed.

Lemma lex_comma (s : string) :
  Json.lex (String "," s) = Json.emit Json.Comma (Json.lex s).
Proof. reflexivity. Qed.

Lemma lex_nil : Json.lex "" = Some [].
Proof. reflexivity. Qed.

Create Rewrite HintDb lexer.
#[local] Hint Rewrite app_assoc_s app_cons_s app_nil_l_s lex_encode lex_space
  lex_newline lex_lbrace lex_rbrace lex_colon lex_comma lex_nil : lexer.

Lemma lex_dump_review (r : review) (rest : string) :
  Json.lex (Json.dump_review r +:+ rest)
  = (fun ts => [Json.LBrace; Json.Str "status"; Json.Colon; Json.Str (status r);
                Json.Comma; Json.Str "preview"; Json.Colon;
                Json.Str (preview r); Json.RBrace] ++ ts) <$> Json.lex rest.
Proof.
  unfold Json.dump_review, Json.nl. autorewrite with lexer.
  by destruct (Json.lex rest).
Qed.

Lemma lex_dump_item (kv : string * review) (rest : string) :
  Json.lex (Json.dump_item kv +:+ rest)
  = (fun ts => item_tokens kv ++ ts) <$> Json.lex rest.
Proof.
  unfold Json.dump_item. autorewrite with lexer.
  rewrite lex_dump_review. by destruct (Json.lex rest).
Qed.

Lemma lex_dump_items (l : list (string * review)) (rest : string) :
  Json.lex (Json.dump_items l +:+ rest)
  = (fun ts => items_tokens l ++ ts) <$> Json.lex rest.
Proof.
  induction l as [|kv l IH].
  - cbn. by destruct (Json.lex rest).
  - destruct l as [|kv' l].
    + apply lex_dump_item.
    + change (Json.dump_items (kv :: kv' :: l))
        with (Json.dump_item kv +:+ "," +:+ Json.nl +:+ "  "
                +:+ Json.dump_items (kv' :: l)).
      rewrite app_assoc_s, lex_dump_item. unfold Json.nl.
      autorewrite with lexer. rewrite IH.
      destruct (Json.lex rest); [|done].
      cbn [fmap option_fmap option_map Json.emit items_tokens].
      by rewrite <- app_assoc.
Qed.

Lemma members_items (l : list (string * review)) : forall pairs kv,
  Json.members pairs (items_tokens (kv :: l) ++ [Json.RBrace])
  = Some (pairs ++ kv :: l).
Proof.
  induction l as [|kv' l IH]; intros pairs [k [st pv]].
  - reflexivity.
  - change (items_tokens ((k, Review st pv) :: kv' :: l))
      with (item_tokens (k, Review st pv) ++ Json.Comma :: items_tokens (kv' :: l)).
    rewrite <- app_assoc.
    change (Json.members pairs (item_tokens (k, Review st pv)
              ++ (Json.Comma :: items_tokens (kv' :: l)) ++ [Json.RBrace]))
      with (Json.members (pairs ++ [(k, Review st pv)])
              (items_tokens (kv' :: l) ++ [Json.RBrace])).
    by rewrite IH, <- app_assoc.
Qed.

(** The text [json.dump] writes for a list of items is read back as that
    list, in that order. *)
Lemma pairs_dump (l : list (string * review)) : Json.pairs (Json.dump l) = Some l.
Proof.
  unfold Json.pairs, Json.dump. destruct l as [|kv l]; [reflexivity|].
  unfold Json.nl. autorewrite with lexer.
  rewrite lex_dump_items. autorewrite with lexer.
  cbn [fmap option_fmap option_map Json.emit].
  destruct (items_tokens (kv :: l) ++ [Json.RBrace]) as [|t ts] eqn:Et.
  { destruct kv as [k [st pv]], l; discriminate. }
  assert (Hne : t :: ts <> [Json.RBrace]).
  { destruct kv as [k [st pv]], l; cbn in Et; injection Et as <- <-; discriminate. }
  rewrite <- Et in *. rewrite members_items.
  destruct t; try reflexivity. destruct ts; try reflexivity.
  by destruct Hne.
Qed.

(** ** The order of the keys *)

Lemma keyed_empty : keyed ∅ [].
Proof. split; [constructor|]. by rewrite dom_empty_L. Qed.

Lemma keyed_elem db order k : keyed db order -> k ∈ order <-> is_Some (db !! k).
Proof.
  intros [_ Hdom]. by rewrite <- elem_of_dom, Hdom, elem_of_list_to_set.
Qed.

(** An assignment keeps the keys in step with the mapping. *)
Lemma keyed_insert db order k v :
  keyed db order -> keyed (<[k := v]> db) (key_added db order k).
Proof.
  intros Hk. pose proof (keyed_elem db order k Hk) as Hin.
  destruct Hk as [Hnd Hdom]. unfold key_added.
  destruct (db !! k) as [v'|] eqn:E.
  - split; [done|]. rewrite dom_insert_L, Hdom.
    assert (k ∈ order) by (apply Hin; eauto).
    apply set_eq. intros j. rewrite elem_of_union, elem_of_singleton,
      elem_of_list_to_set. split; [intros [->|?]; done|auto].
  - split.
    + apply NoDup_app. split; [done|]. split; [|apply NoDup_singleton].
      intros j Hj Hjk. apply list_elem_of_singleton in Hjk as ->.
      apply Hin in Hj. by destruct Hj.
    + rewrite dom_insert_L, Hdom, list_to_set_app_L. cbn.
      apply set_eq. intros j. rewrite !elem_of_union, elem_of_singleton,
        elem_of_empty. tauto.
Qed.

Lemma keyed_dict_of pairs : keyed (fst (dict_of pairs)) (snd (dict_of pairs)).
Proof.
  unfold dict_of.
  assert (H : forall d, keyed (fst d) (snd d) ->
            keyed (fst (fold_left (fun d kv => (<[fst kv := snd kv]> (fst d),
                                     key_added (fst d) (snd d) (fst kv)))
                                  pairs d))
                  (snd (fold_left (fun d kv => (<[fst kv := snd kv]> (fst d),
                                     key_added (fst d) (snd d) (fst kv)))
                                  pairs d))).
  { induction pairs as [|kv l IH]; intros d Hd; [done|].
    cbn [fold_left]. apply IH. cbn [fst snd]. by apply keyed_insert. }
  apply H. apply keyed_empty.
Qed.

Lemma dict_items_snoc db order k v :
  db !! k = Some v -> dict_items db (order ++ [k]) = dict_items db order ++ [(k, v)].
Proof.
  intros E. unfold dict_items. rewrite omap_app. cbn. by rewrite E.
Qed.

(** The items of a dictionary, assigned in their order to an empty
    dictionary, give the dictionary with its keys in the same order. *)
Lemma dict_of_items db : forall order,
  NoDup order -> (forall k, k ∈ order -> is_Some (db !! k)) ->
  dict_of (dict_items db order)
  = (filter (fun kv => fst kv ∈ order) db, order).
Proof.
  induction order as [|k order IH] using rev_ind; intros Hnd Hin.
  - unfold dict_of. cbn. f_equal. symmetry. apply map_eq. intros j.
    rewrite lookup_empty. apply map_lookup_filter_None. right.
    intros x _ Hj. by apply elem_of_nil in Hj.
  - apply NoDup_app in Hnd as (Hnd & Hk & _).
    destruct (Hin k) as [v Hv]; [rewrite elem_of_app, list_elem_of_singleton; auto|].
    rewrite (dict_items_snoc _ _ _ _ Hv). unfold dict_of in *.
    rewrite fold_left_app, IH; [|done|].
    2:{ intros j Hj. apply Hin. rewrite elem_of_app. auto. }
    cbn [fold_left fst snd].
    assert (Hnot : k ∉ order).
    { intros Hko. apply (Hk k Hko). apply list_elem_of_here. }
    assert (Hnone : filter (fun kv : string * review => fst kv ∈ order) db !! k = None).
    { apply map_lookup_filter_None. right. intros x _. exact Hnot. }
    unfold key_added. rewrite Hnone. f_equal.
    apply map_eq. intros j. destruct (decide (j = k)) as [->|Hjk].
    + rewrite lookup_insert_eq. symmetry. apply map_lookup_filter_Some.
      split; [done|]. cbn. rewrite elem_of_app, list_elem_of_singleton. auto.
    + rewrite lookup_insert_ne by done.
      destruct (db !! j) as [x|] eqn:Ej.
      * destruct (decide (j ∈ order)) as [Hj|Hj].
        -- transitivity (Some x); [|symmetry]; apply map_lookup_filter_Some;
             (split; [done|]); cbn; [done|].
           rewrite elem_of_app. auto.
        -- transitivity (@None review); [|symmetry]; apply map_lookup_filter_None;
             right; intros y _; cbn; [done|].
           rewrite elem_of_app, list_elem_of_singleton. tauto.
      * transitivity (@None review); [|symmetry]; apply map_lookup_filter_None;
          by left.
Qed.

Lemma dict_of_keyed db order :
  keyed db order -> dict_of (dict_items db order) = (db, order).
Proof.
  intros Hk. rewrite dict_of_items.
  - f_equal. apply map_filter_id. intros j x Hj. cbn.
    apply (keyed_elem _ _ _ Hk). eauto.
  - by destruct Hk.
  - intros k. apply (keyed_elem _ _ _ Hk).
Qed.

(** The text [json.dump] writes is read back by [json.load] as the
    dictionary it was written from, its keys in the same order. *)
Lemma load_dump db order :
  keyed db order -> Json.load (Json.dump (dict_items db order)) = Some (db, order).
Proof.
  intros Hk. unfold Json.load. by rewrite pairs_dump, dict_of_keyed.
Qed.

(** C8. Saving a database and loading the file saved gives the database
    back: the same fingerprints with the same status and preview, and in
    the same order, whatever the order in which the records were inserted.
    The file is written in that order; [keyed] is what every [dict] keeps,
    each key once in the order of its keys. *)
Theorem save_then_load (r : reviewer) :
  keyed (reviewed_sections r) (key_order r) ->
  db_file (save_database r) = Some (Json.dump (items r))
  /\ load_database (db_file (save_database r))
     = Some (reviewed_sections r, key_order r)
  /\ new_reviewer (db_file (save_database r))
     = Some (Reviewer (reviewed_sections r) (key_order r)
                      (Some (Json.dump (items r))) 0 []).
Proof.
  intros Hk. unfold new_reviewer, load_database, save_database, items.
  cbn [db_file reviewed_sections key_order].
  by rewrite load_dump.
Qed.

(** ** The patterns *)

Lemma Cut_iff (P Q : string -> Prop) s l :
  (forall x, P x <-> Q x) -> Cut P s l -> Cut Q s l.
Proof.
  intros H. induction 1 as [|s l Hf _ IH|c s l Hn _ IH].
  - constructor.
  - constructor; [by apply H|done].
  - constructor; [|done]. intros [-> Hq]. apply Hn. split; [done|by apply H].
Qed.

Lemma within_less hi n : room hi = true -> within (less hi) n -> within hi (S n).
Proof. destruct hi as [[|h]|]; cbn; intros; try done; lia. Qed.

Lemma less_within hi n : within hi (S n) -> room hi = true /\ within (less hi) n.
Proof. destruct hi as [[|h]|]; cbn; intros; split; try done; lia. Qed.

(** The ends of a repetition: every way of taking between [lo] and [hi]
    characters of the class. *)
Lemma rep_spec p s : forall lo hi prev pv rest,
  In (pv, rest) (rep p lo hi prev s)
  <-> exists u, s = u +:+ rest /\ all_of p u = true
                /\ lo <= String.length u /\ within hi (String.length u)
                /\ pv = last_of prev u.
Proof.
  assert (Hstop : forall lo hi prev pv rest s0,
    In (pv, rest) (match lo with 0 => [(prev, s0)] | S _ => [] end)
    <-> (s0 = "" +:+ rest /\ all_of p "" = true /\ lo <= String.length ""
         /\ within hi (String.length "") /\ pv = last_of prev "")).
  { intros lo hi prev pv rest s0. destruct lo; cbn.
    - split.
      + intros [[= <- <-]|[]]. split_and!; try done. destruct hi; cbn; lia.
      + intros (-> & _ & _ & _ & ->). by left.
    - split; [done|]. intros (_ & _ & ? & _). lia. }
  induction s as [|c s IH]; intros lo hi prev pv rest.
  - cbn [rep]. rewrite Hstop. split.
    + intros H. by exists "".
    + intros (u & Hu & Hrest). destruct u; [done|discriminate].
  - cbn [rep]. destruct (p c && room hi) eqn:E.
    + apply andb_prop in E as [Hc Hr].
      rewrite in_app_iff, IH, Hstop. split.
      * intros [(u & -> & Hall & Hlo & Hhi & ->)|H].
        -- exists (String c u). cbn. rewrite Hc, Hall.
           split_and!; try done; [lia|by apply within_less].
        -- by exists "".
      * intros (u & Hu & Hall & Hlo & Hhi & ->). destruct u as [|c' u].
        -- right. done.
        -- left. cbn in Hu. injection Hu as <- ->. cbn in Hall, Hlo, Hhi.
           apply andb_prop in Hall as [_ Hall].
           apply less_within in Hhi as [_ Hhi].
           exists u. split_and!; try done. lia.
    + rewrite Hstop. split.
      * intros H. by exists "".
      * intros (u & Hu & Hall & Hlo & Hhi & ->). destruct u as [|c' u]; [done|].
        cbn in Hu. injection Hu as <- ->. cbn in Hall, Hhi.
        apply andb_prop in Hall as [Hc _].
        apply less_within in Hhi as [Hr _]. rewrite Hc, Hr in E. discriminate.
Qed.

Lemma nonempty_In {A} (l : list A) : l <> [] <-> exists x, In x l.
Proof.
  destruct l as [|x l]; split; try done.
  - intros [x []].
  - intros _. exists x. by left.
Qed.

Lemma run_cat_nonempty r1 r2 prev s :
  run (Cat r1 r2) prev s <> []
  <-> exists pv rest, In (pv, rest) (run r1 prev s) /\ run r2 pv rest <> [].
Proof.
  cbn [run]. rewrite nonempty_In. split.
  - intros (x & Hx). apply in_flat_map in Hx as ([pv rest] & H1 & H2).
    exists pv, rest. split; [done|]. apply nonempty_In. eauto.
  - intros (pv & rest & H1 & H2). apply nonempty_In in H2 as [x Hx].
    exists x. apply in_flat_map. exists (pv, rest). eauto.
Qed.

Lemma run_chr_nonempty c prev s :
  run (Chr c) prev s <> [] <-> exists rest, s = String c rest.
Proof.
  cbn. destruct s as [|a s]; [split; [done|by intros [? ?]]|].
  destruct (Ascii.eqb_spec a c) as [->|Hne]; split; try done; eauto.
  intros [rest [= ? ?]]. done.
Qed.

Lemma run_chr_In c prev s pv rest :
  In (pv, rest) (run (Chr c) prev s) <-> s = String c rest /\ pv = Some c.
Proof.
  cbn. destruct s as [|a s]; [split; [done|by intros [? ?]]|].
  destruct (Ascii.eqb_spec a c) as [->|Hne]; cbn.
  - split; [intros [[= <- <-]|[]]; done|]. intros [[= ->] ->]. by left.
  - split; [done|]. intros [[= ? ?] _]. done.
Qed.

Lemma run_cls_In p prev s pv rest :
  In (pv, rest) (run (Cls p) prev s)
  <-> exists c, s = String c rest /\ p c = true /\ pv = Some c.
Proof.
  cbn. destruct s as [|a s]; [split; [done|by intros (? & ? & ?)]|].
  destruct (p a) eqn:E; cbn.
  - split; [intros [[= <- <-]|[]]; eauto|]. intros (c & [= -> ->] & _ & ->). by left.
  - split; [done|]. intros (c & [= -> ->] & Hc & _). congruence.
Qed.

Lemma run_cls_nonempty p prev s :
  run (Cls p) prev s <> [] <-> exists c rest, s = String c rest /\ p c = true.
Proof.
  rewrite nonempty_In. split.
  - intros ([pv rest] & H). apply run_cls_In in H as (c & ? & ? & ?). eauto.
  - intros (c & rest & -> & Hc). exists (Some c, rest). apply run_cls_In. eauto.
Qed.

Lemma run_rep1_nonempty p prev s :
  run (Rep p 1 None) prev s <> []
  <-> exists c rest, s = String c rest /\ p c = true.
Proof.
  cbn [run]. rewrite nonempty_In. split.
  - intros ([pv rest] & H). apply rep_spec in H as (u & -> & Hall & Hlo & _).
    destruct u as [|c u]; [cbn in Hlo; lia|]. cbn in Hall.
    apply andb_prop in Hall as [Hc _]. exists c, (u +:+ rest). done.
  - intros (c & rest & -> & Hc). exists (Some c, rest). apply rep_spec.
    exists (String c ""). cbn. rewrite Hc. split_and!; try done.
Qed.

(** A pattern [\n(?=X)] matches a newline, and nothing else, where [X]
    can be matched next. *)
Lemma run_newline_ahead X prev s :
  run (Cat (Chr Chars.nl) (Ahead X)) prev s
  = match s with
    | String a s' =>
        if Ascii.eqb a Chars.nl && nonempty (run X (Some a) s')
        then [(Some a, s')] else []
    | EmptyString => []
    end.
Proof.
  cbn [run]. destruct s as [|a s']; [done|].
  destruct (Ascii.eqb a Chars.nl); [|done].
  cbn [flat_map fst snd andb]. by destruct (run X (Some a) s').
Qed.

Lemma nonempty_true {A} (l : list A) : nonempty l = true <-> l <> [].
Proof. by destruct l. Qed.

Lemma split_newline_ahead X text : forall prev,
  Cut (fun s => run X (Some Chars.nl) s <> [])
      text (Regex.split_from (Cat (Chr Chars.nl) (Ahead X)) 0 prev text).
Proof.
  induction text as [|c s IH]; intros prev; [constructor|].
  cbn [Regex.split_from]. rewrite run_newline_ahead.
  destruct (Ascii.eqb_spec c Chars.nl) as [->|Hne].
  - destruct (nonempty (run X (Some Chars.nl) s)) eqn:E; cbn [andb].
    + replace (String.length (String Chars.nl s) - String.length s) with 1
        by (cbn [String.length]; lia).
      constructor; [by apply nonempty_true|apply IH].
    + constructor; [|apply IH]. intros [_ H]. apply nonempty_true in H. congruence.
  - cbn [andb]. constructor; [|apply IH]. by intros [? _].
Qed.

Lemma header_ahead prev s :
  run (Cat (Cls Chars.is_upper)
           (Cat (Rep heading_char 5 (Some 80)) (Chr Chars.nl))) prev s <> []
  <-> heading_follows s.
Proof.
  rewrite run_cat_nonempty. unfold heading_follows. split.
  - intros (pv & s1 & H1 & H2).
    apply run_cls_In in H1 as (c & -> & Hc & ->).
    apply run_cat_nonempty in H2 as (pv & s2 & H2 & H3).
    apply rep_spec in H2 as (body & -> & Hall & Hlo & Hhi & _).
    apply run_chr_nonempty in H3 as [rest ->].
    exists c, body, rest. cbn in Hhi. split_and!; done.
  - intros (c & body & rest & -> & Hc & Hall & Hlo & Hhi).
    exists (Some c), (body +:+ String Chars.nl rest). split.
    + apply run_cls_In. eauto.
    + apply run_cat_nonempty.
      exists (last_of (Some c) body), (String Chars.nl rest). split.
      * apply rep_spec. exists body. split_and!; done.
      * apply run_chr_nonempty. eauto.
Qed.

Lemma numbered_ahead prev s :
  run (Cat (Rep Chars.is_digit 1 None)
           (Cat (Chr ".") (Cls Chars.is_space))) prev s <> []
  <-> numbered_follows s.
Proof.
  rewrite run_cat_nonempty. unfold numbered_follows. split.
  - intros (pv & s1 & H1 & H2).
    apply rep_spec in H1 as (digits & -> & Hall & Hlo & _ & _).
    apply run_cat_nonempty in H2 as (pv' & s2 & H2 & H3).
    apply run_chr_In in H2 as [-> ->].
    apply run_cls_nonempty in H3 as (c & rest & -> & Hc).
    exists digits, c, rest. done.
  - intros (digits & c & rest & -> & Hlo & Hall & Hc).
    exists (last_of prev digits), (String "." (String c rest)). split.
    + apply rep_spec. exists digits. split_and!; done.
    + apply run_cat_nonempty. exists (Some "."%char), (String c rest). split.
      * by apply run_chr_In.
      * apply run_cls_nonempty. eauto.
Qed.

Lemma lit_ahead word k prev s :
  run (lit word k) prev s <> []
  <-> exists rest, s = word +:+ rest /\ run k (last_of prev word) rest <> [].
Proof.
  revert prev s. induction word as [|c w IH]; intros prev s.
  - cbn [lit last_of]. split; [eauto|]. by intros (rest & -> & H).
  - cbn [lit last_of]. rewrite run_cat_nonempty. split.
    + intros (pv & s1 & H1 & H2). apply run_chr_In in H1 as [-> ->].
      apply IH in H2 as (rest & -> & H2). eauto.
    + intros (rest & -> & H). exists (Some c), (w +:+ rest). split.
      * by apply run_chr_In.
      * apply IH. eauto.
Qed.

Lemma word_ahead word prev s :
  run (lit word (Cat (Rep Chars.is_space 1 None)
                     (Rep Chars.is_digit 1 None))) prev s <> []
  <-> word_follows word s.
Proof.
  rewrite lit_ahead. unfold word_follows. split.
  - intros (s1 & -> & H). apply run_cat_nonempty in H as (pv & s2 & H1 & H2).
    apply rep_spec in H1 as (spaces & -> & Hall & Hlo & _ & _).
    apply run_rep1_nonempty in H2 as (d & rest & -> & Hd).
    exists spaces, d, rest. done.
  - intros (spaces & d & rest & -> & Hlo & Hall & Hd).
    exists (spaces +:+ String d rest). split; [done|].
    apply run_cat_nonempty.
    exists (last_of (last_of prev word) spaces), (String d rest). split.
    + apply rep_spec. exists spaces. split_and!; done.
    + apply run_rep1_nonempty. eauto.
Qed.

(** The splits of the four patterns, as cuts at newlines. *)
Lemma split_header text :
  Cut heading_follows text (Regex.split pattern_header text).
Proof.
  eapply Cut_iff; [|apply split_newline_ahead]. intros x. apply header_ahead.
Qed.

Lemma split_numbered text :
  Cut numbered_follows text (Regex.split pattern_numbered text).
Proof.
  eapply Cut_iff; [|apply split_newline_ahead]. intros x. apply numbered_ahead.
Qed.

Lemma split_article text :
  Cut (word_follows "Article") text (Regex.split pattern_article text).
Proof.
  eapply Cut_iff; [|apply split_newline_ahead]. intros x. apply word_ahead.
Qed.

Lemma split_section text :
  Cut (word_follows "Section") text (Regex.split pattern_section text).
Proof.
  eapply Cut_iff; [|apply split_newline_ahead]. intros x. apply word_ahead.
Qed.

Lemma push_cons c l : exists x l', Text.push c l = x :: l'.
Proof. destruct l; cbn; eauto. Qed.

Lemma Cut_cons follows s l : Cut follows s l -> exists x l', l = x :: l'.
Proof. destruct 1; eauto using push_cons. Qed.

(** A cut only drops newlines: joining the pieces with newlines gives the
    text back. *)
Lemma Cut_join follows s l : Cut follows s l -> Text.join nl1 l = s.
Proof.
  induction 1 as [|s l Hf Hc IH|c s l Hn Hc IH]; [done| |].
  - destruct (Cut_cons _ _ _ Hc) as (x & l' & ->).
    change (Text.join nl1 ("" :: x :: l')) with (nl1 +:+ Text.join nl1 (x :: l')).
    by rewrite IH.
  - destruct (Cut_cons _ _ _ Hc) as (x & l' & ->).
    destruct l' as [|y l']; cbn in *; by rewrite <- IH.
Qed.

(** C4, as the code has it. Each of the four patterns cuts the text at
    every newline, preceded by a blank line or not, that is followed by:
    (a) a capital letter A..Z, then 5 to 80 characters each a capital
    letter, a whitespace character (a newline too), [&], ['] or [-], then a
    newline; (b) one or more digits, a dot and a whitespace character;
    (c) [Article], (d) [Section], one or more whitespace characters and a
    digit. Only that newline is dropped, so the pieces joined by newlines
    are the text. *)
Theorem patterns_cut_at_newlines (text : string) :
  Cut heading_follows text (Regex.split pattern_header text)
  /\ Cut numbered_follows text (Regex.split pattern_numbered text)
  /\ Cut (word_follows "Article") text (Regex.split pattern_article text)
  /\ Cut (word_follows "Section") text (Regex.split pattern_section text)
  /\ Forall (fun p => Text.join nl1 (Regex.split p text) = text) patterns.
Proof.
  split_and!.
  - apply split_header.
  - apply split_numbered.
  - apply split_article.
  - apply split_section.
  - repeat constructor; eapply Cut_join;
      [apply split_header|apply split_numbered|apply split_article
      |apply split_section].
Qed.

(** C4, counterexample. The text ["a\n1. b"] has no blank line, and the
    numbered pattern cuts it in two; a heading line of 81 capital letters,
    one more than 80, is a boundary of the heading pattern. *)
Lemma split_without_blank_line :
  let text := "a" +:+ nl1 +:+ "1. b" in
  let heading :=
    "ABCDEFGHIJKLMNOPQRSTUVWXYZABCDEFGHIJKLMNOPQRSTUVWXYZABCDEFGHIJKLMNOPQRSTUVWXYZABC" in
  Text.split nl2 text = [text]
  /\ Regex.split pattern_numbered text = ["a"; "1. b"]
  /\ String.length heading = 81
  /\ Regex.split pattern_header ("x" +:+ nl1 +:+ heading +:+ nl1 +:+ "y")
     = ["x"; heading +:+ nl1 +:+ "y"].
Proof. vm_compute. done. Qed.

(** ** The cascade of [split_into_sections] *)

Lemma first_pattern_taken ps text :
  first_pattern ps text
  = match taken ps text with
    | Some p => stripped_nonempty (Regex.split p text)
    | None => []
    end.
Proof.
  induction ps as [|p ps IH]; [done|].
  cbn [first_pattern taken]. by destruct (5 <? length (Regex.split p text)).
Qed.

Lemma taken_spec ps text p :
  taken ps text = Some p
  <-> exists before after,
        ps = before ++ p :: after
        /\ Forall (fun q => length (Regex.split q text) <= 5) before
        /\ 5 < length (Regex.split p text).
Proof.
  induction ps as [|q ps IH]; cbn [taken].
  - split; [done|]. intros (b & a & H & _). by destruct b.
  - destruct (Nat.ltb_spec 5 (length (Regex.split q text))) as [Hq|Hq].
    + split.
      * intros [= <-]. exists [], ps. split_and!; [done|constructor|done].
      * intros (b & a & H & Hb & Hp). destruct b as [|q' b].
        -- by injection H as -> _.
        -- injection H as <- _. inversion Hb; subst. lia.
    + rewrite IH. split.
      * intros (b & a & -> & Hb & Hp). exists (q :: b), a.
        split_and!; [done|by constructor|done].
      * intros (b & a & H & Hb & Hp). destruct b as [|q' b].
        -- injection H as <- _. lia.
        -- injection H as <- ->. inversion Hb; subst. eauto.
Qed.

Lemma taken_none ps text :
  taken ps text = None
  <-> Forall (fun q => length (Regex.split q text) <= 5) ps.
Proof.
  induction ps as [|q ps IH]; cbn [taken].
  - split; [constructor|done].
  - destruct (Nat.ltb_spec 5 (length (Regex.split q text))) as [Hq|Hq].
    + split; [done|]. inversion 1; subst. lia.
    + rewrite IH. split; [by constructor|]. by inversion 1.
Qed.

Lemma strip_nonspace c s :
  Chars.is_space c = false -> nonblank (String c s) = true.
Proof.
  intros Hc. unfold nonblank, Text.strip. cbn. rewrite Hc. cbn. by rewrite Hc.
Qed.

(** In a cut whose boundaries are followed by a character that is no
    whitespace, every piece after the first has something left when
    stripped. *)
Lemma Cut_nonblank follows s l :
  (forall x, follows x -> starts_nonspace x) ->
  Cut follows s l ->
  exists x l', l = x :: l' /\ Forall (fun y => nonblank y = true) l'
               /\ (starts_nonspace s -> nonblank x = true).
Proof.
  intros Hf. induction 1 as [|s l Hs _ IH|c s l Hn _ IH].
  - exists "", []. split_and!; [done|constructor|].
    intros (c & s' & [=] & _).
  - destruct IH as (x & l' & -> & Hall & Hx).
    exists "", (x :: l'). split_and!; [done|constructor; auto|].
    intros (c & s' & [= <- <-] & Hc). done.
  - destruct IH as (x & l' & -> & Hall & Hx).
    exists (String c x), l'. split_and!; [done|done|].
    intros (c' & s' & [= <- <-] & Hc). by apply strip_nonspace.
Qed.

Lemma stripped_nonempty_length l :
  length (stripped_nonempty l) = length (List.filter nonblank l).
Proof. unfold stripped_nonempty. by rewrite length_map. Qed.

Lemma filter_all {A} (f : A -> bool) l :
  Forall (fun y => f y = true) l -> List.filter f l = l.
Proof.
  induction 1 as [|x l Hx _ IH]; [done|]. cbn. by rewrite Hx, IH.
Qed.

Lemma Cut_pieces follows s l :
  (forall x, follows x -> starts_nonspace x) ->
  Cut follows s l ->
  length l <= S (length (stripped_nonempty l))
  /\ length (stripped_nonempty l) <= length l.
Proof.
  intros Hf Hc. destruct (Cut_nonblank _ _ _ Hf Hc) as (x & l' & -> & Hall & _).
  rewrite stripped_nonempty_length. cbn [List.filter length].
  destruct (nonblank x); cbn [length]; rewrite (filter_all _ _ Hall); lia.
Qed.

Lemma heading_nonspace x : heading_follows x -> starts_nonspace x.
Proof.
  intros (c & body & rest & -> & Hc & _). exists c, (body +:+ String Chars.nl rest).
  split; [done|]. revert Hc. by destruct c as [[] [] [] [] [] [] [] []].
Qed.

Lemma digit_nonspace c : Chars.is_digit c = true -> Chars.is_space c = false.
Proof. by destruct c as [[] [] [] [] [] [] [] []]. Qed.

Lemma numbered_nonspace x : numbered_follows x -> starts_nonspace x.
Proof.
  intros (digits & c & rest & -> & Hlo & Hall & _).
  destruct digits as [|d digits]; [cbn in Hlo; lia|].
  cbn in Hall. apply andb_prop in Hall as [Hd _].
  exists d, (digits +:+ String "." (String c rest)).
  split; [done|by apply digit_nonspace].
Qed.

Lemma article_nonspace x : word_follows "Article" x -> starts_nonspace x.
Proof. intros (spaces & d & rest & -> & _). by eexists _, _. Qed.

Lemma section_nonspace x : word_follows "Section" x -> starts_nonspace x.
Proof. intros (spaces & d & rest & -> & _). by eexists _, _. Qed.

(** A pattern of the class loses at most one piece, the first, when the
    pieces are stripped and the empty ones dropped. *)
Lemma pattern_pieces p text :
  In p patterns ->
  length (Regex.split p text) <= S (length (stripped_nonempty (Regex.split p text)))
  /\ length (stripped_nonempty (Regex.split p text)) <= length (Regex.split p text).
Proof.
  intros [<-|[<-|[<-|[<-|[]]]]].
  - eapply Cut_pieces; [apply heading_nonspace|apply split_header].
  - eapply Cut_pieces; [apply numbered_nonspace|apply split_numbered].
  - eapply Cut_pieces; [apply article_nonspace|apply split_article].
  - eapply Cut_pieces; [apply section_nonspace|apply split_section].
Qed.

Lemma fallback_enough sections text :
  5 <= length sections -> fallback sections text = sections.
Proof.
  intros H. assert (E : (length sections <? 5) = false) by (apply Nat.ltb_ge; lia).
  unfold fallback. cbv zeta. by rewrite !E.
Qed.

Lemma taken_In ps text p : taken ps text = Some p -> In p ps.
Proof.
  intros H. apply taken_spec in H as (b & a & -> & _). apply in_app_iff.
  right. by left.
Qed.

(** C1, as the code has it. The patterns are tried in their order and the
    loop breaks at the first whose split of the text has more than 5
    pieces, counted as [re.split] returns them, before they are stripped and
    the empty ones dropped. The sections are then the stripped, non-empty
    pieces of that pattern, at least 5 of them, and neither a later pattern
    nor a fallback is applied; when no pattern has more than 5 pieces the
    fallbacks start from the empty list. In particular a text that pattern
    (a) cuts into exactly 6 non-empty pieces has those 6 as its sections. *)
Theorem first_pattern_over_five_wins (text : string) :
  (forall p,
      taken patterns text = Some p
      <-> exists before after,
            patterns = before ++ p :: after
            /\ Forall (fun q => length (Regex.split q text) <= 5) before
            /\ 5 < length (Regex.split p text))
  /\ (forall p,
        taken patterns text = Some p ->
        split_into_sections text = stripped_nonempty (Regex.split p text)
        /\ 5 <= length (split_into_sections text))
  /\ (taken patterns text = None <->
      Forall (fun q => length (Regex.split q text) <= 5) patterns)
  /\ (taken patterns text = None ->
      split_into_sections text = fallback [] text)
  /\ (length (stripped_nonempty (Regex.split pattern_header text)) = 6 ->
      split_into_sections text
      = stripped_nonempty (Regex.split pattern_header text)).
Proof.
  assert (Hsome : forall p,
             taken patterns text = Some p ->
             split_into_sections text = stripped_nonempty (Regex.split p text)
             /\ 5 <= length (split_into_sections text)).
  { intros p Hp. unfold split_into_sections.
    rewrite first_pattern_taken, Hp.
    pose proof (taken_In _ _ _ Hp) as Hin.
    destruct (pattern_pieces p text Hin) as [Hlo _].
    apply taken_spec in Hp as (_ & _ & _ & _ & Hgt).
    rewrite fallback_enough by lia. split; [done|lia]. }
  split_and!.
  - intros p. apply taken_spec.
  - exact Hsome.
  - apply taken_none.
  - intros Hn. unfold split_into_sections. by rewrite first_pattern_taken, Hn.
  - intros H6. apply Hsome.
    destruct (pattern_pieces pattern_header text) as [_ Hhi]; [by left|].
    cbn [taken patterns].
    destruct (Nat.ltb_spec 5 (length (Regex.split pattern_header text)));
      [done|lia].
Qed.

(** C1, counterexample. Five numbered lines after an empty first line: the
    numbered pattern gives 6 pieces, of which 5 are not empty, and no
    pattern gives more than 5 non-empty pieces; the pattern is taken all the
    same and its 5 pieces are the sections, where the fallbacks alone would
    have returned the text as one section. *)
Lemma five_nonempty_pieces_taken :
  let text := nl1 +:+ "1. a" +:+ nl1 +:+ "2. b" +:+ nl1 +:+ "3. c"
                  +:+ nl1 +:+ "4. d" +:+ nl1 +:+ "5. e" in
  length (Regex.split pattern_numbered text) = 6
  /\ length (stripped_nonempty (Regex.split pattern_numbered text)) = 5
  /\ forallb (fun p => length (stripped_nonempty (Regex.split p text)) <=? 5)
             patterns = true
  /\ split_into_sections text = stripped_nonempty (Regex.split pattern_numbered text)
  /\ split_into_sections text = ["1. a"; "2. b"; "3. c"; "4. d"; "5. e"]
  /\ fallback [] text = [text].
Proof. vm_compute. done. Qed.

(** ** Sentences and chunks *)

Lemma lstrip_length s : String.length (Text.lstrip s) <= String.length s.
Proof.
  induction s as [|c s IH]; [done|]. cbn.
  destruct (Chars.is_space c); cbn; lia.
Qed.

Lemma lead_space c s : Chars.is_space c = true -> lead (String c s) = S (lead s).
Proof.
  intros Hc. unfold lead. cbn. rewrite Hc. pose proof (lstrip_length s). lia.
Qed.

Lemma lead_nonspace c s : Chars.is_space c = false -> lead (String c s) = 0.
Proof. intros Hc. unfold lead. cbn. rewrite Hc. cbn. lia. Qed.

Lemma space_not_end c : Chars.is_space c = true -> sentence_end c = false.
Proof. by destruct c as [[] [] [] [] [] [] [] []]. Qed.

Lemma run_sentence prev s :
  run pattern_sentence prev s
  = if is_end prev then rep Chars.is_space 1 None prev s else [].
Proof.
  unfold pattern_sentence. cbn [run]. destruct prev as [a|]; [|done].
  cbn [is_end]. destruct (sentence_end a); [|done].
  cbn [flat_map fst snd]. apply app_nil_r.
Qed.

(** The first end of a greedy run of whitespace is after all of it. *)
Lemma rep_space_head s : forall lo prev,
  lo <= lead s ->
  exists pv l,
    rep Chars.is_space lo None prev s = (pv, Text.lstrip s) :: l.
Proof.
  induction s as [|c s IH]; intros lo prev Hlo.
  - unfold lead in Hlo. cbn in Hlo. assert (lo = 0) as -> by lia. cbn. eauto.
  - cbn [rep Text.lstrip less room]. destruct (Chars.is_space c) eqn:Hc.
    + rewrite (lead_space _ _ Hc) in Hlo. cbn [andb].
      destruct (IH (Nat.pred lo) (Some c)) as (pv & l & ->); [lia|].
      cbn. eauto.
    + rewrite (lead_nonspace _ _ Hc) in Hlo. assert (lo = 0) as -> by lia.
      cbn. eauto.
Qed.

Lemma rep_space_none c s prev :
  Chars.is_space c = false -> rep Chars.is_space 1 None prev (String c s) = [].
Proof. intros Hc. cbn. by rewrite Hc. Qed.

(** Skipping the rest of a match: the scan resumes after the whitespace. *)
Lemma skip_lead r s : forall prev,
  is_end prev = false ->
  exists pv, Regex.split_from r (lead s) prev s
             = Regex.split_from r 0 pv (Text.lstrip s)
             /\ is_end pv = false.
Proof.
  induction s as [|c s IH]; intros prev Hp.
  - exists prev. done.
  - cbn [Text.lstrip]. destruct (Chars.is_space c) eqn:Hc.
    + rewrite (lead_space _ _ Hc). cbn [Regex.split_from].
      apply IH. cbn. by apply space_not_end.
    + rewrite (lead_nonspace _ _ Hc). exists prev. done.
Qed.

Lemma split_sentences n : forall s prev,
  String.length s <= n ->
  Sentences (is_end prev) s (Regex.split_from pattern_sentence 0 prev s).
Proof.
  induction n as [|n IH]; intros s prev Hn.
  - destruct s; [constructor|cbn in Hn; lia].
  - destruct s as [|c s]; [constructor|]. cbn in Hn.
    cbn [Regex.split_from]. rewrite run_sentence.
    destruct (is_end prev) eqn:Hp; [destruct (Chars.is_space c) eqn:Hc|].
    + destruct (rep_space_head (String c s) 1 prev) as (pv & l & ->).
      { rewrite (lead_space _ _ Hc). lia. }
      fold (lead (String c s)). rewrite (lead_space _ _ Hc).
      destruct (skip_lead pattern_sentence s (Some c)) as (pv' & -> & Hpv').
      { cbn. by apply space_not_end. }
      constructor; [done|]. rewrite <- Hpv'. apply IH.
      pose proof (lstrip_length s). lia.
    + rewrite (rep_space_none _ _ _ Hc).
      constructor; [by right|]. apply (IH s (Some c)). lia.
    + constructor; [by left|]. apply (IH s (Some c)). lia.
Qed.

Lemma Sentences_cons b s l : Sentences b s l -> exists x l', l = x :: l'.
Proof. destruct 1; eauto using push_cons. Qed.

Lemma join_snoc_length cur s :
  cur <> [] ->
  String.length (Text.join " " (cur ++ [s]))
  = String.length (Text.join " " cur) + 1 + String.length s.
Proof.
  induction cur as [|x cur IH]; [done|]. intros _.
  destruct cur as [|y cur].
  - cbn. rewrite length_app_s. cbn. lia.
  - change (Text.join " " ((x :: y :: cur) ++ [s]))
      with (x +:+ " " +:+ Text.join " " ((y :: cur) ++ [s])).
    change (Text.join " " (x :: y :: cur))
      with (x +:+ " " +:+ Text.join " " (y :: cur)).
    rewrite !length_app_s, IH by done. lia.
Qed.

Lemma pack_measured lo hi st s : measured st -> measured (pack lo hi st s).
Proof.
  unfold measured, pack. intros H.
  destruct (_ && _); cbn [current_chunk current_length chunks].
  - destruct (chunks st); cbn; lia.
  - destruct (current_chunk st) as [|x cur] eqn:E.
    + destruct H as [-> ->]. cbn. lia.
    + destruct (((x :: cur) ++ [s])) eqn:E'; [by destruct cur|].
      rewrite <- E', join_snoc_length by done. lia.
Qed.

Lemma pack_current lo hi st s : current_chunk (pack lo hi st s) <> [].
Proof.
  unfold pack. destruct (_ && _); cbn; [done|].
  by destruct (current_chunk st).
Qed.

Lemma fold_pack lo hi l : forall st,
  measured st ->
  measured (fold_left (pack lo hi) l st)
  /\ (l <> [] -> current_chunk (fold_left (pack lo hi) l st) <> []).
Proof.
  induction l as [|s l IH]; intros st H; [done|].
  cbn [fold_left]. destruct (IH (pack lo hi st s)) as [H1 H2].
  { by apply pack_measured. }
  split; [done|]. intros _. destruct l as [|s' l]; [apply pack_current|].
  by apply H2.
Qed.

Lemma extend_last_snoc init x s : extend_last (init ++ [x]) s = init ++ [x +:+ s].
Proof.
  induction init as [|y init IH]; [done|].
  cbn [app extend_last]. rewrite IH. by destruct init.
Qed.



(** ** Every match of the five patterns consumes a character *)

Lemma patterns_consume p prev s pv rest :
  In p (pattern_sentence :: patterns) ->
  In (pv, rest) (run p prev s) ->
  String.length rest < String.length s.
Proof.
  intros [<-|Hp] Hin.
  - rewrite run_sentence in Hin. destruct (is_end prev); [|done].
    apply rep_spec in Hin as (u & -> & _ & Hlo & _).
    rewrite length_app_s. lia.
  - assert (Hnl : exists X, p = Cat (Chr Chars.nl) (Ahead X)).
    { destruct Hp as [<-|[<-|[<-|[<-|[]]]]]; eexists; reflexivity. }
    destruct Hnl as [X ->]. rewrite run_newline_ahead in Hin.
    destruct s as [|a s']; [done|].
    destruct (_ && _); [|done]. destruct Hin as [[= <- <-]|[]]. cbn. lia.
Qed.

(** ** Instances on the sample inputs *)

(** C1, on a text with six headings: its sections are the six pieces. *)
Lemma first_pattern_over_five_wins_witness :
  length (stripped_nonempty (Regex.split pattern_header six_headings)) = 6
  /\ split_into_sections six_headings
     = stripped_nonempty (Regex.split pattern_header six_headings).
Proof.
  split; [vm_compute; reflexivity|].
  destruct (first_pattern_over_five_wins six_headings) as (_ & _ & _ & _ & H).
  apply H. vm_compute. reflexivity.
Defined.

(** C2, on the sample database: the four cases of the precedence. *)
Lemma verdict_precedence_witness :
  provide_verdict sample_db ["a"; "b"] 0 = CONTAINS_DISAPPROVED
  /\ provide_verdict sample_db ["a"; "a"] 0 = ALL_APPROVED
  /\ provide_verdict sample_db ["a"; "c"] 0 = INCOMPLETE
  /\ provide_verdict sample_db ["a"; "a"] 1 = INCOMPLETE.
Proof.
  split_and!.
  - destruct (verdict_precedence sample_db ["a"; "b"] 0) as (_ & _ & _ & _ & H & _).
    apply (H "a" "b" "a" "b"); try reflexivity; vm_compute; reflexivity.
  - destruct (verdict_precedence sample_db ["a"; "a"] 0) as (_ & _ & _ & _ & H & _).
    apply (H "a" "a" "a" "a"); try reflexivity; vm_compute; reflexivity.
  - destruct (verdict_precedence sample_db ["a"; "c"] 0) as (_ & _ & _ & _ & H & _).
    apply (H "a" "c" "a" "a"); try reflexivity; vm_compute; reflexivity.
  - destruct (verdict_precedence sample_db ["a"; "a"] 1) as (_ & _ & _ & _ & _ & H).
    apply H; [reflexivity|].
    repeat constructor; exists "a"; vm_compute; reflexivity.
Defined.

(** A first run on the text with six headings: the file has the records in
    the order of the sections, as [json.dump] goes through a [dict]. *)
Example file_in_insertion_order :
  let r := fst (process_tc_file (fun _ _ => Approved) fresh six_headings) in
  db_file r = Some (Json.dump (items r))
  /\ map (fun kv => preview (snd kv)) (items r)
     = ["intro"; "HEADER" +:+ nl1 +:+ "one"; "HEADER" +:+ nl1 +:+ "two";
        "HEADER" +:+ nl1 +:+ "three"; "HEADER" +:+ nl1 +:+ "four";
        "HEADER" +:+ nl1 +:+ "five"]
  /\ map fst (items r) = map hash_section (split_into_sections six_headings).
Proof. vm_compute. done. Qed.

(** C8, on the sample database, whose keys are not in the order of the
    mapping: the file is written, and read back, with [b] before [a]. *)
Lemma save_then_load_witness :
  let r := Reviewer sample_db sample_keys None 0 [] in
  db_file (save_database r) = Some (Json.dump (items r))
  /\ load_database (db_file (save_database r)) = Some (sample_db, sample_keys)
  /\ new_reviewer (db_file (save_database r))
     = Some (Reviewer sample_db sample_keys (Some (Json.dump (items r))) 0 []).
Proof.
  apply (save_then_load (Reviewer sample_db sample_keys None 0 [])).
  split.
  - apply (@bool_decide_unpack (NoDup sample_keys) _). vm_compute. exact I.
  - apply (@bool_decide_unpack
             (dom sample_db = (list_to_set sample_keys : gset string)) _).
    vm_compute. exact I.
Defined.

(** C7, on the text with six headings: a first run that approves all six
    sections saves six times, and a second run changes nothing. *)
Lemma reprocessing_writes_nothing_witness :
  let r1 := fst (process_tc_file (fun _ _ => Approved) fresh six_headings) in
  let second := process_tc_file (fun _ _ => Disapproved) r1 six_headings in
  saves r1 = 6
  /\ fst second = r1
  /\ already_reviewed (counts (snd second)) = 6
  /\ new_sections (counts (snd second)) = 0
  /\ verdict (snd second) = ALL_APPROVED.
Proof.
  intros r1 second.
  assert (Hall : Forall (fun s => is_Some (reviewed_sections r1 !! hash_section s))
                        (split_into_sections six_headings)).
  { apply (bool_decide_unpack _). vm_compute. exact I. }
  destruct (reprocessing_writes_nothing (fun _ _ => Disapproved) r1 six_headings Hall)
    as (H1 & _ & _ & _ & H5 & H6 & H7 & _ & _ & _ & _ & H12).
  fold second in H1, H5, H6, H7, H12.
  split_and!.
  - vm_compute. reflexivity.
  - exact H1.
  - rewrite H6, H5. vm_compute. reflexivity.
  - exact H7.
  - rewrite H12. vm_compute. reflexivity.
Defined.


(* ===================================================================== *)
(** * Further properties of the code *)
(* ===================================================================== *)

(** ** The shape of the sections *)

Lemma chunk_by_size_nonempty text lo hi : chunk_by_size text lo hi <> [].
Proof.
  unfold chunk_by_size. cbv zeta.
  by destruct (if _ && _ then _ else _).
Qed.

Lemma stripped_nonempty_trimmed l : Forall trimmed (stripped_nonempty l).
Proof.
  unfold stripped_nonempty. apply Forall_forall. intros x Hx. apply list_elem_of_In in Hx.
  apply in_map_iff in Hx as (y & <- & Hy). apply filter_In in Hy as [_ Hy].
  split; [|apply strip_idem].
  intros E. rewrite E in Hy. discriminate.
Qed.

Lemma long_paragraphs_trimmed l :
  Forall (fun s => trimmed s /\ 100 < String.length s) (long_paragraphs l).
Proof.
  unfold long_paragraphs. apply Forall_forall. intros x Hx. apply list_elem_of_In in Hx.
  apply in_map_iff in Hx as (y & <- & Hy). apply filter_In in Hy as [_ Hy].
  apply andb_prop in Hy as [Hy Hlen]. apply Nat.ltb_lt in Hlen.
  split; [split|exact Hlen]; [|apply strip_idem].
  intros E. rewrite E in Hy. discriminate.
Qed.

Lemma long_lines_trimmed l :
  Forall (fun s => trimmed s /\ 200 < String.length s) (long_lines l).
Proof.
  unfold long_lines. apply Forall_forall. intros x Hx. apply list_elem_of_In in Hx.
  apply in_map_iff in Hx as (y & <- & Hy). apply filter_In in Hy as [_ Hy].
  apply Nat.ltb_lt in Hy.
  split; [split|exact Hy]; [|apply strip_idem].
  intros E. rewrite E in Hy. cbn in Hy. lia.
Qed.

Lemma first_pattern_trimmed ps text : Forall trimmed (first_pattern ps text).
Proof.
  rewrite first_pattern_taken. destruct (taken ps text); [|constructor].
  apply stripped_nonempty_trimmed.
Qed.

Lemma sections_cases (text : string) :
  split_into_sections text <> []
  /\ (split_into_sections text = chunk_by_size text 300 2000
      \/ (5 <= length (split_into_sections text)
          /\ Forall trimmed (split_into_sections text))).
Proof.
  unfold split_into_sections, fallback. cbv zeta.
  pose proof (first_pattern_trimmed patterns text) as H1.
  pose proof (long_paragraphs_trimmed (Text.split nl2 text)) as H2.
  pose proof (long_lines_trimmed (Text.split nl1 text)) as H3.
  pose proof (chunk_by_size_nonempty text 300 2000) as H4.
  set (a := first_pattern patterns text) in *.
  set (b := long_paragraphs (Text.split nl2 text)) in *.
  set (c := long_lines (Text.split nl1 text)) in *.
  assert (Hb : Forall trimmed b) by (eapply Forall_impl; [exact H2|]; by intros ? [? _]).
  assert (Hc : Forall trimmed c) by (eapply Forall_impl; [exact H3|]; by intros ? [? _]).
  assert (Hlen : forall l : list string, 5 <= length l -> l <> [])
    by (intros [|? ?] Hl; [cbn in Hl; lia|done]).
  destruct (Nat.ltb_spec (length a) 5) as [Ha|Ha];
    [destruct (Nat.ltb_spec (length b) 5) as [Hb5|Hb5];
       [destruct (Nat.ltb_spec (length c) 5) as [Hc5|Hc5]|]|].
  - split; [done|by left].
  - destruct (Nat.ltb_spec (length c) 5); [lia|]. split; [auto|right; auto].
  - destruct (Nat.ltb_spec (length b) 5); [lia|].
    destruct (Nat.ltb_spec (length b) 5); [lia|]. split; [auto|right; auto].
  - destruct (Nat.ltb_spec (length a) 5); [lia|].
    destruct (Nat.ltb_spec (length a) 5); [lia|]. split; [auto|right; auto].
Qed.

(** X1. [split_into_sections] never returns an empty list. Unless its
    result is that of [chunk_by_size], it has at least 5 sections, each of
    them non-empty and with no whitespace around it. *)
Theorem sections_shape (text : string) :
  split_into_sections text <> []
  /\ (split_into_sections text = chunk_by_size text 300 2000
      \/ (5 <= length (split_into_sections text)
          /\ Forall trimmed (split_into_sections text))).
Proof. apply sections_cases. Qed.

(** X2. When no pattern has more than 5 pieces: five or more paragraphs of
    more than 100 characters (stripped) are the sections; failing that, five
    or more lines of more than 200 characters are; failing that too, the
    sections are those of [chunk_by_size]. *)
Theorem fallback_cascade (text : string) :
  taken patterns text = None ->
  let paragraphs := long_paragraphs (Text.split nl2 text) in
  let long := long_lines (Text.split nl1 text) in
  (5 <= length paragraphs ->
   split_into_sections text = paragraphs
   /\ Forall (fun s => trimmed s /\ 100 < String.length s)
             (split_into_sections text))
  /\ (length paragraphs < 5 -> 5 <= length long ->
      split_into_sections text = long
      /\ Forall (fun s => trimmed s /\ 200 < String.length s)
                (split_into_sections text))
  /\ (length paragraphs < 5 -> length long < 5 ->
      split_into_sections text = chunk_by_size text 300 2000).
Proof.
  intros Hn paragraphs long.
  assert (E : split_into_sections text = fallback [] text).
  { unfold split_into_sections. by rewrite first_pattern_taken, Hn. }
  rewrite E. unfold fallback. cbv zeta.
  change (length [] <? 5) with true. cbv iota.
  fold paragraphs long.
  split_and!.
  - intros H5. destruct (Nat.ltb_spec (length paragraphs) 5); [lia|].
    destruct (Nat.ltb_spec (length paragraphs) 5); [lia|].
    split; [done|apply long_paragraphs_trimmed].
  - intros Hp Hl. destruct (Nat.ltb_spec (length paragraphs) 5); [|lia].
    destruct (Nat.ltb_spec (length long) 5); [lia|].
    split; [done|apply long_lines_trimmed].
  - intros Hp Hl. destruct (Nat.ltb_spec (length paragraphs) 5); [|lia].
    destruct (Nat.ltb_spec (length long) 5); [|lia]. done.
Qed.

(** X2, on five long paragraphs. *)
Lemma fallback_cascade_witness :
  split_into_sections five_paragraphs = repeat (times 101 "x") 5.
Proof.
  assert (Hn : taken patterns five_paragraphs = None) by (vm_compute; reflexivity).
  destruct (fallback_cascade five_paragraphs Hn) as (H & _ & _).
  destruct H as [-> _]; [vm_compute; lia|].
  vm_compute. reflexivity.
Defined.

(** ** The form of a fingerprint *)

Lemma hex_digit_is_hex d : (0 <= d < 16)%Z -> is_hex (Sha256.hex_digit d) = true.
Proof.
  intros H.
  assert (d = 0 \/ d = 1 \/ d = 2 \/ d = 3 \/ d = 4 \/ d = 5 \/ d = 6 \/ d = 7
          \/ d = 8 \/ d = 9 \/ d = 10 \/ d = 11 \/ d = 12 \/ d = 13 \/ d = 14
          \/ d = 15)%Z as Hd by lia.
  repeat (destruct Hd as [->|Hd]; [reflexivity|]). by subst.
Qed.

Lemma nibble_range x : (0 <= Z.land x 0xF < 16)%Z.
Proof.
  change 0xF%Z with (Z.ones 4). rewrite Z.land_ones by lia.
  apply Z.mod_pos_bound. lia.
Qed.

Lemma all_of_app p a b : all_of p (a +:+ b) = all_of p a && all_of p b.
Proof.
  induction a as [|c a IH]; [done|]. cbn. by rewrite IH, andb_assoc.
Qed.

Lemma hex_word_shape w idx :
  let word := fold_right
    (fun i acc => String (Sha256.hex_digit
                            (Z.land (Z.shiftr w (4 * Z.of_nat i)) 0xF)) acc)
    EmptyString idx in
  String.length word = length idx /\ all_of is_hex word = true.
Proof.
  induction idx as [|i idx [IH1 IH2]]; [done|]. cbn zeta in *.
  cbn [fold_right String.length all_of length].
  rewrite IH1, IH2, hex_digit_is_hex by apply nibble_range. done.
Qed.

Lemma hexdigest_shape ws :
  let text := fold_right (fun w acc => Sha256.hex32 w +:+ acc) EmptyString ws in
  String.length text = 8 * length ws /\ all_of is_hex text = true.
Proof.
  induction ws as [|w ws [IH1 IH2]]; [done|]. cbn zeta in *.
  cbn [fold_right length]. rewrite length_app_s, all_of_app, IH1, IH2.
  destruct (hex_word_shape w (rev (seq 0 8))) as [H1 H2]. cbn zeta in H1, H2.
  unfold Sha256.hex32. rewrite H1, H2. cbn [rev seq app length]. split; [lia|done].
Qed.

Lemma compress_length h block :
  length h = 8 -> length (Sha256.compress h block) = 8.
Proof.
  intros H. unfold Sha256.compress. cbv zeta.
  rewrite length_map, length_combine, H. reflexivity.
Qed.

Lemma digest_length msg : length (Sha256.digest msg) = 8.
Proof.
  unfold Sha256.digest. cbv zeta.
  generalize (Sha256.blocks (length (Sha256.words (Sha256.pad msg)) / 16)
                (Sha256.words (Sha256.pad msg))).
  assert (H : length Sha256.H0 = 8) by reflexivity.
  revert H. generalize Sha256.H0.
  intros h H bs. revert h H.
  induction bs as [|b bs IH]; intros h H; [done|].
  cbn [fold_left]. apply IH. by apply compress_length.
Qed.

(** X3. The fingerprint of any text is 64 characters, each one of
    [0-9a-f]. *)
Theorem hash_section_hex (text : string) :
  String.length (hash_section text) = 64
  /\ all_of is_hex (hash_section text) = true.
Proof.
  unfold hash_section, Sha256.hexdigest. cbv zeta.
  destruct (hexdigest_shape
              (Sha256.digest (Sha256.utf8 (Text.lower (Text.strip text)))))
    as [H1 H2].
  cbn zeta in H1, H2. rewrite digest_length in H1. split; [exact H1|exact H2].
Qed.

(** ** One run of [process_tc_file] *)

Lemma verdict_rules (db : gmap string review) (sections : list string) (n : nat) :
  let v := provide_verdict db sections n in
  (v = INCOMPLETE <-> missing db sections \/ 0 < n)
  /\ (v = CONTAINS_DISAPPROVED
      <-> ~ (missing db sections \/ 0 < n) /\ has_status "disapproved" db sections)
  /\ (v = ALL_APPROVED
      <-> ~ (missing db sections \/ 0 < n)
          /\ ~ has_status "disapproved" db sections
          /\ has_status "approved" db sections)
  /\ (v = NO_SECTIONS_REVIEWED
      <-> ~ (missing db sections \/ 0 < n)
          /\ ~ has_status "disapproved" db sections
          /\ ~ has_status "approved" db sections).
Proof.
  intros v.
  destruct (look_flags db sections (Flags true false false)) as (Ha & Hd & Hp).
  cbn in Ha, Hd, Hp.
  assert (Hv : v = provide_verdict db sections n) by reflexivity.
  clearbody v. unfold provide_verdict in Hv.
  set (g := fold_left (look db) sections (Flags true false false)) in *.
  pose proof (Nat.ltb_lt 0 n) as Hs.
  destruct (0 <? n), (all_sections_reviewed g),
    (has_disapproved g), (has_approved g); cbn in Hv; subst v;
    split_and!; (split; [try discriminate; intros _|try tauto]);
    try tauto.
  all: intuition (first [discriminate | lia | congruence | eauto]).
Qed.

Lemma events_split (es : list event) :
  length (List.filter is_new es)
  + length (List.filter (fun e => negb (is_new e)) es) = length es
  /\ length (List.filter is_new es)
     = count_new Approved es + count_new Disapproved es + count_new Skipped es.
Proof.
  unfold count_new. induction es as [|e es [IH1 IH2]]; [done|].
  destruct e as [st|[]]; cbn; split; lia.
Qed.

Lemma finish_saves prompt sections : forall r,
  saves (finish prompt r sections)
  = saves r + count_new Approved (trace prompt r sections)
    + count_new Disapproved (trace prompt r sections).
Proof.
  unfold count_new.
  induction sections as [|s l IH]; intros r; [cbn; lia|].
  change (finish prompt r (s :: l)) with (finish prompt (next prompt r s) l).
  rewrite IH. cbn [trace]. unfold event_of.
  destruct (stored (reviewed_sections r) s) as [rec|] eqn:E.
  - rewrite (next_known _ _ _ _ E). cbn. lia.
  - rewrite (next_new _ _ _ E).
    destruct (prompt (length (asked r)) s); cbn; lia.
Qed.

Lemma prompted_length sections : forall es,
  length es = length sections ->
  length (prompted sections es) = length (List.filter is_new es).
Proof.
  induction sections as [|s l IH]; intros [|e es] H; try done.
  cbn in H. destruct e; cbn; rewrite IH by lia; done.
Qed.

(** After the loop a section has its record, or a section was skipped. *)
Lemma finish_covers prompt sections : forall r,
  count_new Skipped (trace prompt r sections) = 0 ->
  Forall (fun s => is_Some (stored (reviewed_sections (finish prompt r sections)) s))
         sections.
Proof.
  unfold count_new.
  induction sections as [|s l IH]; intros r H; [constructor|].
  change (finish prompt r (s :: l)) with (finish prompt (next prompt r s) l).
  cbn [trace] in H. unfold event_of in H.
  destruct (stored (reviewed_sections r) s) as [rec|] eqn:E.
  - cbn in H. constructor; [|by apply IH].
    exists rec. unfold stored in *. apply finish_keeps.
    by rewrite (next_known _ _ _ _ E).
  - pose proof (next_new prompt r s E) as Hn.
    destruct (prompt (length (asked r)) s) eqn:Hp; cbn in H; [| |lia].
    + constructor; [|by apply IH]. eexists. unfold stored.
      apply finish_keeps. rewrite Hn. cbn. apply lookup_insert_eq.
    + constructor; [|by apply IH]. eexists. unfold stored.
      apply finish_keeps. rewrite Hn. cbn. apply lookup_insert_eq.
Qed.

(** A section disapproved in the run has a disapproved record after it. *)
Lemma finish_disapproved prompt sections : forall r,
  0 < count_new Disapproved (trace prompt r sections) ->
  has_status "disapproved" (reviewed_sections (finish prompt r sections)) sections.
Proof.
  unfold count_new.
  induction sections as [|s l IH]; intros r H; [cbn in H; lia|].
  change (finish prompt r (s :: l)) with (finish prompt (next prompt r s) l).
  apply has_status_cons.
  cbn [trace] in H. unfold event_of in H.
  destruct (stored (reviewed_sections r) s) as [rec|] eqn:E.
  - cbn in H. right. by apply IH.
  - pose proof (next_new prompt r s E) as Hn.
    destruct (prompt (length (asked r)) s) eqn:Hp; cbn in H.
    + right. by apply IH.
    + left. exists (Review "disapproved" (Text.take 200 s)). split; [|reflexivity].
      apply finish_keeps. rewrite Hn. cbn. apply lookup_insert_eq.
    + right. by apply IH.
Qed.

Lemma process_parts prompt r text :
  let sections := split_into_sections text in
  fst (process_tc_file prompt r text) = finish prompt r sections
  /\ total (snd (process_tc_file prompt r text)) = length sections
  /\ printed (counts (snd (process_tc_file prompt r text))) = trace prompt r sections
  /\ counts (snd (process_tc_file prompt r text))
     = snd (fold_left (review_one prompt) sections (r, Tally 0 0 0 0 0 []))
  /\ verdict (snd (process_tc_file prompt r text))
     = provide_verdict (reviewed_sections (finish prompt r sections)) sections
         (skipped (counts (snd (process_tc_file prompt r text)))).
Proof.
  intros sections.
  destruct (review_all_spec prompt r sections) as [Ha Hb].
  unfold process_tc_file. fold sections. unfold review_all in *.
  destruct (fold_left (review_one prompt) sections (r, Tally 0 0 0 0 0 []))
    as [r1 t1]. cbn in *. subst r1. done.
Qed.

(** X4. The summary of a run adds up: every section is already reviewed
    or new, every new section is approved, disapproved or skipped, one line
    is printed per section, the file is saved once per approval or
    disapproval, and the prompt is shown once per new section. *)
Theorem summary_adds_up (prompt : nat -> string -> choice) (r : reviewer)
        (text : string) :
  let r' := fst (process_tc_file prompt r text) in
  let rep := snd (process_tc_file prompt r text) in
  total rep = length (split_into_sections text)
  /\ length (printed (counts rep)) = total rep
  /\ total rep = already_reviewed (counts rep) + new_sections (counts rep)
  /\ new_sections (counts rep)
     = approved (counts rep) + disapproved (counts rep) + skipped (counts rep)
  /\ saves r' = saves r + approved (counts rep) + disapproved (counts rep)
  /\ length (asked r') = length (asked r) + new_sections (counts rep).
Proof.
  intros r' rep. subst r' rep.
  destruct (process_parts prompt r text) as (H1 & H2 & H3 & H4 & _).
  cbv zeta in *.
  pose proof (fold_review_one_counts prompt (split_into_sections text) r
                (Tally 0 0 0 0 0 [])) as Hc.
  cbv zeta in Hc. rewrite <- H4 in Hc. cbn in Hc.
  destruct Hc as (C1 & C2 & C3 & C4 & C5).
  set (es := trace prompt r (split_into_sections text)) in *.
  destruct (events_split es) as [E1 E2].
  assert (El : length es = length (split_into_sections text))
    by apply trace_length.
  rewrite H1, H2, H3, finish_saves, finish_asked, length_app, length_rev.
  fold es. rewrite prompted_length by done.
  split_and!; lia.
Qed.

Lemma skipped_counted prompt r text :
  skipped (counts (snd (process_tc_file prompt r text)))
  = count_new Skipped (trace prompt r (split_into_sections text))
  /\ disapproved (counts (snd (process_tc_file prompt r text)))
     = count_new Disapproved (trace prompt r (split_into_sections text))
  /\ new_sections (counts (snd (process_tc_file prompt r text)))
     = length (List.filter is_new (trace prompt r (split_into_sections text)))
  /\ already_reviewed (counts (snd (process_tc_file prompt r text)))
     = length (List.filter (fun e => negb (is_new e))
                 (trace prompt r (split_into_sections text))).
Proof.
  destruct (process_parts prompt r text) as (_ & _ & _ & H4 & _).
  cbv zeta in H4.
  pose proof (fold_review_one_counts prompt (split_into_sections text) r
                (Tally 0 0 0 0 0 [])) as Hc.
  cbv zeta in Hc. rewrite <- H4 in Hc. cbn in Hc.
  destruct Hc as (C1 & C2 & C3 & C4 & C5). done.
Qed.

Lemma covered_not_missing db sections :
  Forall (fun s => is_Some (stored db s)) sections -> ~ missing db sections.
Proof.
  intros Hall (s & Hin & Hn). rewrite Forall_forall in Hall.
  destruct (Hall s Hin) as [rec Hrec]. unfold stored in Hrec. congruence.
Qed.

(** X5. The verdict of a run is [INCOMPLETE] exactly when a section was
    skipped in it: with no skip, every section has its record once the loop
    is over. With no skip and a disapproval in the run, the verdict is
    [CONTAINS_DISAPPROVED]. *)
Theorem verdict_after_run (prompt : nat -> string -> choice) (r : reviewer)
        (text : string) :
  let rep := snd (process_tc_file prompt r text) in
  (verdict rep = INCOMPLETE <-> 0 < skipped (counts rep))
  /\ (skipped (counts rep) = 0 ->
      Forall (fun s => is_Some (reviewed_sections (fst (process_tc_file prompt r text))
                                  !! hash_section s))
             (split_into_sections text))
  /\ (skipped (counts rep) = 0 -> 0 < disapproved (counts rep) ->
      verdict rep = CONTAINS_DISAPPROVED).
Proof.
  intros rep. subst rep.
  destruct (process_parts prompt r text) as (H1 & _ & _ & _ & H5).
  destruct (skipped_counted prompt r text) as (Hs & Hd & _).
  cbv zeta in *. rewrite H5, H1.
  set (sections := split_into_sections text) in *.
  set (n := skipped (counts (snd (process_tc_file prompt r text)))) in *.
  destruct (verdict_rules (reviewed_sections (finish prompt r sections)) sections n)
    as (V1 & V2 & _). cbv zeta in V1, V2.
  assert (Hcov : n = 0 -> ~ missing (reviewed_sections (finish prompt r sections))
                              sections).
  { intros Hn. apply covered_not_missing, finish_covers. congruence. }
  split_and!.
  - rewrite V1. split; [|tauto]. intros [Hm|Hn]; [|done].
    destruct n; [|lia]. by destruct Hcov.
  - intros Hn. apply finish_covers. congruence.
  - intros Hn Hdis. apply V2. split.
    + intros [Hm|Hlt]; [by apply Hcov|lia].
    + apply finish_disapproved. rewrite <- Hd. exact Hdis.
Qed.

Lemma finish_decided prompt sections : forall r,
  decided (reviewed_sections r) ->
  decided (reviewed_sections (finish prompt r sections)).
Proof.
  induction sections as [|s l IH]; intros r H; [done|].
  apply IH. by apply next_decided.
Qed.

(** X6. On a database in which every record is an approval or a
    disapproval, as the program itself writes it, a run never ends on
    [NO SECTIONS REVIEWED]: with no skip the verdict is
    [CONTAINS_DISAPPROVED] or [ALL_APPROVED]. *)
Theorem own_database_is_reviewed (prompt : nat -> string -> choice)
        (r : reviewer) (text : string) :
  decided (reviewed_sections r) ->
  let rep := snd (process_tc_file prompt r text) in
  verdict rep <> NO_SECTIONS_REVIEWED
  /\ (skipped (counts rep) = 0 ->
      verdict rep = CONTAINS_DISAPPROVED \/ verdict rep = ALL_APPROVED).
Proof.
  intros Hdec rep. subst rep.
  destruct (process_parts prompt r text) as (H1 & _ & _ & _ & H5).
  destruct (skipped_counted prompt r text) as (Hs & _).
  cbv zeta in *. rewrite H5.
  set (sections := split_into_sections text) in *.
  set (n := skipped (counts (snd (process_tc_file prompt r text)))) in *.
  set (db := reviewed_sections (finish prompt r sections)) in *.
  destruct (verdict_rules db sections n) as (V1 & V2 & V3 & V4).
  cbv zeta in V1, V2, V3, V4.
  assert (Hsome : n = 0 -> has_status "disapproved" db sections
                           \/ has_status "approved" db sections).
  { intros Hn.
    assert (Hcov : Forall (fun s => is_Some (stored db s)) sections)
      by (apply finish_covers; congruence).
    destruct (sections_cases text) as [Hne _]. fold sections in Hne.
    destruct sections as [|s l]; [done|]. inversion Hcov as [|? ? [rec Hrec] _]; subst.
    pose proof (finish_decided prompt (s :: l) r Hdec) as Hfin. fold db in Hfin.
    destruct (Hfin _ _ Hrec) as [Hst|Hst]; [right|left];
      exists s, rec; rewrite elem_of_cons; auto. }
  assert (Hnm : n = 0 -> ~ (missing db sections \/ 0 < n)).
  { intros Hn [Hm|Hlt]; [|lia].
    revert Hm. apply covered_not_missing, finish_covers. congruence. }
  split.
  - rewrite V4. intros (Hinc & Hd & Ha).
    destruct n; [|apply Hinc; right; lia]. destruct Hsome; tauto.
  - intros Hn. specialize (Hsome Hn). specialize (Hnm Hn).
    destruct (provide_verdict db sections n) eqn:Ev; auto.
    + exfalso. apply Hnm. by apply V1.
    + exfalso. destruct V4 as [V4 _]. specialize (V4 eq_refl). tauto.
Qed.

(** X6, on a first run from an empty database. *)
Lemma own_database_is_reviewed_witness :
  verdict (snd (process_tc_file (fun _ _ => Approved) fresh six_headings))
  <> NO_SECTIONS_REVIEWED.
Proof.
  apply (own_database_is_reviewed (fun _ _ => Approved) fresh six_headings).
  apply map_Forall_empty.
Defined.

(** X7. A run in which nothing was skipped leaves nothing to do: running
    the same text again, whatever would be answered, changes neither the
    database nor the file, shows no prompt, counts every section as already
    reviewed and gives the same verdict. *)
Theorem second_run_is_idle (prompt prompt' : nat -> string -> choice)
        (r : reviewer) (text : string) :
  skipped (counts (snd (process_tc_file prompt r text))) = 0 ->
  let r1 := fst (process_tc_file prompt r text) in
  let again := process_tc_file prompt' r1 text in
  fst again = r1
  /\ new_sections (counts (snd again)) = 0
  /\ skipped (counts (snd again)) = 0
  /\ already_reviewed (counts (snd again)) = total (snd again)
  /\ verdict (snd again) = verdict (snd (process_tc_file prompt r text)).
Proof.
  intros Hskip r1 again. subst again.
  destruct (process_parts prompt r text) as (H1 & _ & _ & _ & H5).
  destruct (skipped_counted prompt r text) as (Hs & _).
  destruct (process_parts prompt' r1 text) as (G1 & G2 & _ & _ & G5).
  destruct (skipped_counted prompt' r1 text) as (Gs & _ & Gn & Ga).
  cbv zeta in *.
  set (sections := split_into_sections text) in *.
  assert (Hcov : Forall (fun s => is_Some (stored (reviewed_sections r1) s)) sections).
  { subst r1. rewrite H1. apply finish_covers. congruence. }
  destruct (finish_all_known prompt' sections r1 Hcov) as [Hf Ht].
  assert (Hnone : forall f : event -> bool,
            (forall st, f (Already st) = false) ->
            length (List.filter f (trace prompt' r1 sections)) = 0).
  { intros f Hf'. rewrite Ht. clear -Hf'.
    induction sections as [|s l IH]; [done|]. cbn. by rewrite Hf'. }
  assert (Hall : length (List.filter (fun e => negb (is_new e))
                           (trace prompt' r1 sections)) = length sections).
  { rewrite Ht. clear. induction sections as [|s l IH]; [done|]. cbn. by rewrite IH. }
  unfold count_new in *.
  rewrite Hnone in Gn by done. rewrite Hnone in Gs by (by intros).
  split_and!.
  - by rewrite G1.
  - exact Gn.
  - exact Gs.
  - by rewrite Ga, G2, Hall.
  - rewrite G5, Gs, Hf, H5, Hskip. subst r1. by rewrite H1.
Qed.

(** X7, on the text with six headings, all approved the first time. *)
Lemma second_run_is_idle_witness :
  let r1 := fst (process_tc_file (fun _ _ => Approved) fresh six_headings) in
  fst (process_tc_file (fun _ _ => Disapproved) r1 six_headings) = r1.
Proof.
  intros r1.
  apply (second_run_is_idle (fun _ _ => Approved) (fun _ _ => Disapproved)
           fresh six_headings).
  vm_compute. reflexivity.
Defined.

(** X8. A run never changes or removes a record that is in the database:
    the first decision on a fingerprint stays. *)
Theorem records_are_kept (prompt : nat -> string -> choice) (r : reviewer)
        (text : string) (k : string) (rec : review) :
  reviewed_sections r !! k = Some rec ->
  reviewed_sections (fst (process_tc_file prompt r text)) !! k = Some rec.
Proof.
  intros H. destruct (process_parts prompt r text) as (H1 & _).
  cbv zeta in H1. rewrite H1. by apply finish_keeps.
Qed.

(** X8, on the sample database and a run that disapproves everything. *)
Lemma records_are_kept_witness :
  reviewed_sections
    (fst (process_tc_file (fun _ _ => Disapproved)
            (Reviewer sample_db sample_keys None 0 []) "a")) !! hash_section "a"
  = Some (Review "approved" "a").
Proof.
  apply (records_are_kept (fun _ _ => Disapproved)
           (Reviewer sample_db sample_keys None 0 [])).
  vm_compute. reflexivity.
Defined.

Lemma finish_new_records prompt sections : forall r k rec,
  reviewed_sections r !! k = None ->
  reviewed_sections (finish prompt r sections) !! k = Some rec ->
  exists s d, s ∈ sections /\ k = hash_section s
              /\ (d = Approved \/ d = Disapproved)
              /\ rec = Review (status_of d) (Text.take 200 s).
Proof.
  induction sections as [|s l IH]; intros r k rec Hn Hs; [cbn in Hs; congruence|].
  change (finish prompt r (s :: l)) with (finish prompt (next prompt r s) l) in Hs.
  destruct (reviewed_sections (next prompt r s) !! k) as [rec1|] eqn:E1.
  - pose proof (finish_keeps prompt l _ _ _ E1) as Hk.
    rewrite Hk in Hs. injection Hs as <-.
    destruct (stored (reviewed_sections r) s) as [rec'|] eqn:E.
    + rewrite (next_known _ _ _ _ E) in E1. congruence.
    + rewrite (next_new _ _ _ E) in E1.
      destruct (prompt (length (asked r)) s) eqn:Hp; cbn in E1.
      * apply lookup_insert_Some in E1 as [[<- <-]|[_ E1]]; [|congruence].
        exists s, Approved. rewrite elem_of_cons. auto.
      * apply lookup_insert_Some in E1 as [[<- <-]|[_ E1]]; [|congruence].
        exists s, Disapproved. rewrite elem_of_cons. auto.
      * congruence.
  - destruct (IH _ _ _ E1 Hs) as (s' & d & Hin & Hrest).
    exists s', d. rewrite elem_of_cons. auto.
Qed.

(** X9. A record that a run adds belongs to a section of the text: its
    key is the fingerprint of the section, its preview the first 200
    characters of the section, and its status an approval or a disapproval. *)
Theorem new_records_from_sections (prompt : nat -> string -> choice)
        (r : reviewer) (text : string) (k : string) (rec : review) :
  reviewed_sections r !! k = None ->
  reviewed_sections (fst (process_tc_file prompt r text)) !! k = Some rec ->
  exists s, s ∈ split_into_sections text
            /\ k = hash_section s
            /\ preview rec = Text.take 200 s
            /\ (status rec = "approved" \/ status rec = "disapproved").
Proof.
  intros Hn Hs. destruct (process_parts prompt r text) as (H1 & _).
  cbv zeta in H1. rewrite H1 in Hs.
  destruct (finish_new_records _ _ _ _ _ Hn Hs) as (s & d & Hin & -> & Hd & ->).
  exists s. split_and!; [done|done|done|].
  destruct Hd as [-> | ->]; auto.
Qed.

(** X9, on a first run that approves the six sections. *)
Lemma new_records_from_sections_witness :
  exists s, s ∈ split_into_sections six_headings
            /\ hash_section "intro" = hash_section s
            /\ preview (Review "approved" "intro") = Text.take 200 s
            /\ (status (Review "approved" "intro") = "approved"
                \/ status (Review "approved" "intro") = "disapproved").
Proof.
  apply (new_records_from_sections (fun _ _ => Approved) fresh six_headings);
    vm_compute; reflexivity.
Defined.

(** ** The database over a session *)

Lemma take_length n s : String.length (Text.take n s) <= n.
Proof.
  revert s. induction n as [|n IH]; intros s.
  - change (String.length "" <= 0). cbn. lia.
  - destruct s as [|c s].
    + change (String.length "" <= S n). cbn. lia.
    + change (S (String.length (Text.take n s)) <= S n). specialize (IH s). lia.
Qed.

Lemma next_short prompt r s :
  short_previews (reviewed_sections r) ->
  short_previews (reviewed_sections (next prompt r s)).
Proof.
  intros H. destruct (stored (reviewed_sections r) s) as [rec'|] eqn:E.
  - by rewrite (next_known _ _ _ _ E).
  - rewrite (next_new _ _ _ E).
    destruct (prompt (length (asked r)) s); cbn; auto;
      apply map_Forall_insert_2; auto; apply take_length.
Qed.

Lemma finish_short prompt sections : forall r,
  short_previews (reviewed_sections r) ->
  short_previews (reviewed_sections (finish prompt r sections)).
Proof.
  induction sections as [|s l IH]; intros r H; [done|].
  apply IH. by apply next_short.
Qed.

Lemma turn_short prompt r c :
  short_previews (reviewed_sections r) ->
  short_previews (reviewed_sections (turn prompt r c)).
Proof.
  intros H. destruct c as [text| |confirm|]; cbn; auto.
  - rewrite process_fst. by apply finish_short.
  - unfold clear_database. destruct (String.eqb _ _); [|done].
    apply map_Forall_empty.
Qed.

(** X10. Over a whole session, whatever is reviewed, cleared or typed, a
    database whose previews are at most 200 characters long stays so; the
    database of a session that starts without a file is so. *)
Theorem previews_stay_short (prompt : nat -> string -> choice)
        (cs : list command) :
  (forall r, short_previews (reviewed_sections r) ->
             short_previews (reviewed_sections (main prompt r cs)))
  /\ short_previews (reviewed_sections (main prompt fresh cs)).
Proof.
  assert (H : forall r, short_previews (reviewed_sections r) ->
                        short_previews (reviewed_sections (main prompt r cs))).
  { induction cs as [|c cs IH]; intros r Hr; [done|].
    cbn. apply IH. by apply turn_short. }
  split; [exact H|]. apply H. apply map_Forall_empty.
Qed.

Lemma next_keyed prompt r s :
  keyed (reviewed_sections r) (key_order r) ->
  keyed (reviewed_sections (next prompt r s)) (key_order (next prompt r s)).
Proof.
  intros H. destruct (stored (reviewed_sections r) s) as [rec|] eqn:E.
  - by rewrite (next_known _ _ _ _ E).
  - rewrite (next_new _ _ _ E).
    pose proof (keyed_insert _ _ (hash_section s) (Review "approved" (Text.take 200 s)) H) as Ha.
    pose proof (keyed_insert _ _ (hash_section s) (Review "disapproved" (Text.take 200 s)) H) as Hd.
    unfold key_added, stored in *. rewrite E in Ha, Hd.
    by destruct (prompt (length (asked r)) s).
Qed.

Lemma finish_keyed prompt sections : forall r,
  keyed (reviewed_sections r) (key_order r) ->
  keyed (reviewed_sections (finish prompt r sections))
        (key_order (finish prompt r sections)).
Proof.
  induction sections as [|s l IH]; intros r H; [done|].
  cbn. apply IH. by apply next_keyed.
Qed.

Lemma turn_keyed prompt r c :
  keyed (reviewed_sections r) (key_order r) ->
  keyed (reviewed_sections (turn prompt r c)) (key_order (turn prompt r c)).
Proof.
  intros H. destruct c as [text| |confirm|]; cbn; auto.
  - rewrite process_fst. by apply finish_keyed.
  - unfold clear_database. destruct (String.eqb _ _); [|done].
    apply keyed_empty.
Qed.

(** Over a session the keys stay in step with the mapping. *)
Lemma main_keyed prompt cs : forall r,
  keyed (reviewed_sections r) (key_order r) ->
  keyed (reviewed_sections (main prompt r cs)) (key_order (main prompt r cs)).
Proof.
  induction cs as [|c cs IH]; intros r H; [done|].
  cbn. apply IH. by apply turn_keyed.
Qed.

(** X11. Starting the program again after a session that began without a
    file loads the database exactly as the session left it in memory, the
    records in the order in which they were inserted: the file is missing
    only while the database is empty, and otherwise holds every record. *)
Theorem restart_reloads (prompt : nat -> string -> choice) (cs : list command) :
  let r := main prompt fresh cs in
  new_reviewer (db_file r)
  = Some (Reviewer (reviewed_sections r) (key_order r) (db_file r) 0 []).
Proof.
  intros r.
  destruct (main_invariant prompt cs fresh) as [_ Hs].
  { split; [apply map_Forall_empty|]. by left. }
  pose proof (main_keyed prompt cs fresh keyed_empty) as Hk.
  fold r in Hs, Hk. unfold new_reviewer, load_database.
  destruct Hs as [[Hf He]|Hs].
  - rewrite Hf. cbn [fst snd]. rewrite He in Hk |- *.
    destruct Hk as [_ Hdom]. rewrite dom_empty_L in Hdom.
    destruct (key_order r) as [|k l]; [done|].
    exfalso. assert (Hin : k ∈ (∅ : gset string)); [|by apply elem_of_empty in Hin].
    rewrite Hdom, elem_of_list_to_set. apply list_elem_of_here.
  - rewrite Hs at 1. unfold items. by rewrite load_dump.
Qed.

(** ** The prompt *)

Lemma review_section_spec inputs : forall d n rest,
  Console.review_section inputs = Some (d, n, rest)
  <-> exists bad line,
        inputs = bad ++ line :: rest /\ length bad = n
        /\ Forall invalid bad /\ Console.read line = Some d.
Proof.
  induction inputs as [|x l IH]; intros d n rest.
  - cbn. split; [done|]. intros (bad & line & H & _). by destruct bad.
  - cbn [Console.review_section]. destruct (Console.read x) as [dx|] eqn:Ex.
    + split.
      * intros [= <- <- <-]. exists [], x. split_and!; [done|done|constructor|done].
      * intros (bad & line & H & Hn & Hbad & Hline). destruct bad as [|b bad].
        -- cbn in H. injection H as <- <-. cbn in Hn. subst n. congruence.
        -- cbn in H. injection H as <- _. inversion Hbad; subst.
           unfold invalid in *. congruence.
    + destruct (Console.review_section l) as [[[d' n'] rest']|].
      * split.
        -- intros [= <- <- <-].
           destruct (proj1 (IH d' n' rest') eq_refl)
             as (bad & line & -> & <- & Hbad & Hline).
           exists (x :: bad), line. split_and!; [done|done|by constructor|done].
        -- intros (bad & line & H & Hn & Hbad & Hline). destruct bad as [|b bad].
           ++ cbn in H. injection H as <- <-. congruence.
           ++ cbn in H. injection H as <- ->. inversion Hbad; subst.
              assert (Some (d', n', rest') = Some (d, length bad, rest)) as Hrs.
              { apply IH. exists bad, line. done. }
              injection Hrs as -> -> ->. done.
      * split; [done|].
        intros (bad & line & H & Hn & Hbad & Hline). destruct bad as [|b bad].
        -- cbn in H. injection H as <- <-. congruence.
        -- cbn in H. injection H as <- ->. inversion Hbad; subst.
           assert (@None (choice * nat * list string)
                   = Some (d, length bad, rest)) as Hrs.
           { apply IH. exists bad, line. done. }
           discriminate.
Qed.

Lemma review_section_none inputs :
  Console.review_section inputs = None <-> Forall invalid inputs.
Proof.
  induction inputs as [|x l IH]; cbn [Console.review_section].
  - split; [constructor|done].
  - destruct (Console.read x) as [dx|] eqn:Ex.
    + split; [done|]. inversion 1; subst. unfold invalid in *. congruence.
    + destruct (Console.review_section l) as [[[d' n'] rest']|].
      * split; [done|]. intros Hall. inversion Hall as [|? ? Hx Hl]; subst.
        destruct IH as [_ IH]. specialize (IH Hl). discriminate.
      * split; [|done]. intros _. constructor; [done|]. by apply IH.
Qed.

Lemma read_spec line d :
  Console.read line = Some d
  <-> Text.lower line = match d with
                        | Approved => "a" | Disapproved => "d" | Skipped => "s"
                        end.
Proof.
  unfold Console.read. cbv zeta.
  destruct (String.eqb_spec (Text.lower line) "a") as [->|Ha];
    [|destruct (String.eqb_spec (Text.lower line) "d") as [->|Hd];
      [|destruct (String.eqb_spec (Text.lower line) "s") as [->|Hs]]];
    destruct d; split; intros H; try done; try congruence.
Qed.

(** X12. The prompt of [review_section] returns the decision of the first
    line typed that is [a], [d] or [s] in either case and nothing more, and
    prints [Invalid choice] once for every line before it; the lines after
    it are left for later; it returns nothing only when no line typed is
    an answer. *)
Theorem prompt_takes_first_answer (inputs : list string) :
  (forall d n rest,
      Console.review_section inputs = Some (d, n, rest)
      <-> exists bad line,
            inputs = bad ++ line :: rest /\ length bad = n
            /\ Forall invalid bad
            /\ Text.lower line = match d with
                                 | Approved => "a"
                                 | Disapproved => "d"
                                 | Skipped => "s"
                                 end)
  /\ (Console.review_section inputs = None <-> Forall invalid inputs)
  /\ (forall line, invalid line
                   <-> Text.lower line <> "a" /\ Text.lower line <> "d"
                       /\ Text.lower line <> "s").
Proof.
  split_and!.
  - intros d n rest. rewrite review_section_spec.
    split; intros (bad & line & H1 & H2 & H3 & H4); exists bad, line;
      split_and!; try done; by apply read_spec.
  - apply review_section_none.
  - intros line. unfold invalid, Console.read. cbv zeta.
    destruct (String.eqb_spec (Text.lower line) "a") as [Ha|Ha];
      [|destruct (String.eqb_spec (Text.lower line) "d") as [Hd|Hd];
        [|destruct (String.eqb_spec (Text.lower line) "s") as [Hs|Hs]]];
      split; try done; try tauto.
Qed.

(** ** The summary of [view_database] *)

Lemma status_counts (l : list (string * review)) :
  let count st := length (List.filter (fun kv => String.eqb (status (snd kv)) st) l) in
  count "approved" + count "disapproved" <= length l
  /\ (Forall (fun kv => status (snd kv) = "approved"
                        \/ status (snd kv) = "disapproved") l ->
      count "approved" + count "disapproved" = length l).
Proof.
  cbv zeta. induction l as [|[k rec] l [IH1 IH2]]; [split; [cbn; lia|done]|].
  cbn [List.filter snd length].
  destruct (String.eqb_spec (status rec) "approved") as [Ea|Ea];
    destruct (String.eqb_spec (status rec) "disapproved") as [Ed|Ed];
    try congruence; cbn [length]; (split; [lia|]); intros Hall;
    inversion Hall as [|? ? Hx Hl]; subst; specialize (IH2 Hl); try lia.
  cbn in Hx. tauto.
Qed.

(** X13. [view_database] says that nothing is reviewed exactly when the
    database is empty; otherwise the total it prints is the number of
    records, the approved and disapproved counts together never exceed it,
    and they add up to it when every record is an approval or a
    disapproval, as in every database of a session started without a file. *)
Theorem view_counts_add_up (db : gmap string review) :
  (Console.view_database db = None <-> db = ∅)
  /\ (forall n a d,
        Console.view_database db = Some (n, a, d) ->
        n = size db /\ 0 < n /\ a + d <= n /\ (decided db -> a + d = n))
  /\ (forall prompt cs,
        db = reviewed_sections (main prompt fresh cs) ->
        db = ∅ \/ exists a d, Console.view_database db = Some (size db, a, d)
                              /\ a + d = size db).
Proof.
  assert (Hview : forall n a d,
             Console.view_database db = Some (n, a, d) ->
             n = size db /\ 0 < n /\ a + d <= n /\ (decided db -> a + d = n)).
  { intros n a d. unfold Console.view_database, Console.count_status.
    case_bool_decide as Hne; [done|]. intros [= <- <- <-].
    destruct (status_counts (map_to_list db)) as [H1 H2]. cbv zeta in H1, H2.
    rewrite <- length_map_to_list.
    assert (Hpos : 0 < length (map_to_list db)).
    { destruct (map_to_list db) eqn:E; [|cbn; lia].
      by apply map_to_list_empty_iff in E. }
    split_and!; [done|done|done|]. intros Hdec. apply H2.
    apply map_Forall_to_list in Hdec.
    eapply Forall_impl; [exact Hdec|]. by intros [k rec]. }
  split_and!.
  - unfold Console.view_database. case_bool_decide; split; done.
  - exact Hview.
  - intros prompt cs ->.
    destruct (main_invariant prompt cs fresh) as [Hd _].
    { split; [apply map_Forall_empty|]. by left. }
    set (db := reviewed_sections (main prompt fresh cs)) in *.
    destruct (Console.view_database db) as [[[n a] d]|] eqn:E.
    + right. destruct (Hview n a d eq_refl) as (-> & _ & _ & Hsum).
      exists a, d. split; [done|]. by apply Hsum.
    + left. unfold Console.view_database in E. by case_bool_decide.
Qed.

(** ** [wrap_text] *)

Lemma str_words_words s :
  Forall is_word (str_words s)
  /\ (forall c r, s = String c r -> Chars.is_space c = false -> str_words s <> []).
Proof.
  induction s as [|c s [IH1 IH2]]; [split; [constructor|done]|].
  cbn [str_words]. destruct (Chars.is_space c) eqn:Hc.
  - split; [done|]. intros ? ? [= <- <-]. congruence.
  - destruct s as [|c' s'].
    + split; [|done]. repeat constructor; [done|]. cbn. by rewrite Hc.
    + destruct (Chars.is_space c') eqn:Hc'.
      * split; [|done]. constructor; [|done]. split; [done|]. cbn. by rewrite Hc.
      * specialize (IH2 c' s' eq_refl Hc').
        destruct (str_words (String c' s')) as [|w ws]; [done|].
        cbn [Text.push]. split; [|done].
        inversion IH1 as [|? ? [Hw1 Hw2] Hws]; subst.
        constructor; [|done]. split; [done|]. cbn. by rewrite Hc, Hw2.
Qed.

Lemma str_words_word w : is_word w -> forall rest,
  word_end rest -> str_words (w +:+ rest) = w :: str_words rest.
Proof.
  intros [Hne Hall]. induction w as [|c w IH]; [done|]. intros rest Hrest.
  cbn in Hall. apply andb_prop in Hall as [Hc Hall].
  apply negb_true_iff in Hc.
  change (String c w +:+ rest) with (String c (w +:+ rest)).
  cbn [str_words]. rewrite Hc. destruct w as [|c' w'].
  - change ("" +:+ rest) with rest.
    destruct Hrest as [->|(c2 & r & -> & Hc2)]; [done|]. by rewrite Hc2.
  - change (String c' w' +:+ rest) with (String c' (w' +:+ rest)).
    assert (Hc' : Chars.is_space c' = false).
    { cbn in Hall. apply andb_prop in Hall as [Hc' _]. by apply negb_true_iff. }
    cbv iota. rewrite Hc'.
    change (String c' (w' +:+ rest)) with (String c' w' +:+ rest).
    by rewrite IH.
Qed.

Lemma str_words_space c s : Chars.is_space c = true -> str_words (String c s) = str_words s.
Proof. intros H. cbn [str_words]. by rewrite H. Qed.

Lemma str_words_joined c g : Chars.is_space c = true -> Forall is_word g ->
  forall rest, word_end rest ->
  str_words (Text.join (String c "") g +:+ rest) = g ++ str_words rest.
Proof.
  intros Hc. induction 1 as [|w g Hw Hg IH]; intros rest Hrest; [done|].
  destruct g as [|w' g'].
  - cbn [Text.join app]. by apply str_words_word.
  - change (Text.join (String c "") (w :: w' :: g'))
      with (w +:+ String c "" +:+ Text.join (String c "") (w' :: g')).
    rewrite !app_assoc_s. rewrite str_words_word; [|done|right; eauto].
    change (String c "" +:+ Text.join (String c "") (w' :: g') +:+ rest)
      with (String c (Text.join (String c "") (w' :: g') +:+ rest)).
    rewrite str_words_space by done. by rewrite IH.
Qed.

Lemma str_words_lines groups :
  Forall (Forall is_word) groups ->
  forall rest, word_end rest ->
  str_words (Text.join nl1 (map (Text.join " ") groups) +:+ rest)
  = concat groups ++ str_words rest.
Proof.
  induction 1 as [|g gs Hg Hgs IH]; intros rest Hrest; [done|].
  destruct gs as [|g' gs'].
  - cbn [map Text.join concat]. rewrite app_nil_r.
    by apply (str_words_joined " ").
  - change (Text.join nl1 (map (Text.join " ") (g :: g' :: gs')))
      with (Text.join " " g +:+ nl1
              +:+ Text.join nl1 (map (Text.join " ") (g' :: gs'))).
    rewrite !app_assoc_s.
    rewrite (str_words_joined " "); [|done|done|right; by eexists _, _].
    change (nl1 +:+ Text.join nl1 (map (Text.join " ") (g' :: gs')) +:+ rest)
      with (String Chars.nl
              (Text.join nl1 (map (Text.join " ") (g' :: gs')) +:+ rest)).
    rewrite str_words_space by done. rewrite IH by done.
    rewrite (concat_cons g). by rewrite <- app_assoc.
Qed.

Lemma step_wrapped width done st w :
  wrapped width done st -> wrapped width (done ++ [w]) (Wrap.step width st w).
Proof.
  intros (groups & Hl & Hc & Hg & Hcur). unfold Wrap.step. cbv zeta.
  destruct (Nat.leb_spec
              (Wrap.current_length st
               + (String.length w
                  + (if nonempty (Wrap.current_line st) then 1 else 0))) width)
    as [Hfit|Hno].
  - exists groups. cbn [Wrap.lines Wrap.current_line Wrap.current_length].
    split; [done|split; [by rewrite app_assoc, Hc|split; [done|]]].
    destruct (Wrap.current_line st) as [|x cur] eqn:E.
    + cbn in *. rewrite Hcur in *. split; [lia|left; lia].
    + destruct Hcur as [Hlen _].
      destruct ((x :: cur) ++ [w]) eqn:E'; [by destruct cur|]. rewrite <- E'.
      rewrite join_snoc_length by done. cbn [nonempty] in *. split; [lia|left; lia].
  - destruct (Wrap.current_line st) as [|x cur] eqn:E.
    + exists groups. cbn [Wrap.lines Wrap.current_line Wrap.current_length nonempty].
      rewrite app_nil_r in Hc.
      split; [done|split; [by rewrite Hc|split; [done|]]].
      split; [done|right; eauto].
    + exists (groups ++ [x :: cur]).
      cbn [Wrap.lines Wrap.current_line Wrap.current_length nonempty].
      destruct Hcur as [Hlen Hw].
      split; [|split; [|split]].
      * by rewrite map_app, Hl.
      * rewrite concat_app. cbn [concat]. rewrite app_nil_r. by rewrite Hc.
      * apply Forall_app. split; [done|]. constructor; [|constructor].
        split; [done|]. rewrite <- Hlen. exact Hw.
      * split; [done|right; eauto].
Qed.

Lemma fold_wrapped width ws : forall done st,
  wrapped width done st ->
  wrapped width (done ++ ws) (fold_left (Wrap.step width) ws st).
Proof.
  induction ws as [|w ws IH]; intros done st H; [by rewrite app_nil_r|].
  cbn [fold_left]. replace (done ++ w :: ws) with ((done ++ [w]) ++ ws)
    by (by rewrite <- app_assoc).
  apply IH. by apply step_wrapped.
Qed.

Lemma elem_of_concat {A} (x : A) (groups : list (list A)) :
  x ∈ concat groups <-> exists g, g ∈ groups /\ x ∈ g.
Proof.
  rewrite list_elem_of_In, in_concat.
  split; intros (g & H1 & H2); exists g; by rewrite ?list_elem_of_In in *.
Qed.

(** The lines of [wrap_text] are groups of the words of the text. *)
Lemma wrap_lines_groups text width :
  exists groups,
    Wrap.wrap_lines text width = map (Text.join " ") groups
    /\ concat groups = str_words text
    /\ Forall (fun g => g <> []
                        /\ (String.length (Text.join " " g) <= width
                            \/ exists w, g = [w])) groups.
Proof.
  destruct (fold_wrapped width (str_words text) [] (Wrap.State [] [] 0))
    as (groups & Hl & Hc & Hg & Hcur).
  { exists []. cbn. split_and!; done. }
  unfold Wrap.wrap_lines. cbv zeta. cbn [app] in Hc.
  destruct (Wrap.current_line _) as [|x cur] eqn:E.
  - exists groups. rewrite app_nil_r in Hc. cbn [nonempty]. done.
  - exists (groups ++ [x :: cur]). cbn [nonempty]. destruct Hcur as [Hlen Hw].
    split_and!.
    + by rewrite map_app, Hl.
    + rewrite concat_app. cbn [concat]. by rewrite app_nil_r.
    + apply Forall_app. split; [done|]. constructor; [|constructor].
      split; [done|]. rewrite <- Hlen. exact Hw.
Qed.

(** X14. Every line of [wrap_text] is at most [width] characters long,
    unless it is a single word of the text that is longer than that; no
    line is empty. *)
Theorem wrapped_lines_fit (text : string) (width : nat) :
  Forall (fun line => line <> ""
                      /\ (String.length line <= width
                          \/ (line ∈ str_words text
                              /\ width < String.length line)))
         (Wrap.wrap_lines text width).
Proof.
  destruct (wrap_lines_groups text width) as (groups & -> & Hc & Hg).
  destruct (str_words_words text) as [Hw _]. rewrite <- Hc in Hw.
  apply Forall_forall. intros line Hin.
  apply list_elem_of_fmap in Hin as (g & -> & Hin).
  rewrite Forall_forall in Hg. destruct (Hg g Hin) as [Hne Hfit].
  assert (Hgw : Forall is_word g).
  { rewrite Forall_forall in Hw |- *. intros w Hwg. apply Hw.
    apply elem_of_concat. eauto. }
  split.
  - destruct g as [|w g]; [done|]. inversion Hgw as [|? ? [Hw1 _] _]; subst.
    destruct g; [done|]. cbn. by destruct w.
  - destruct (Nat.le_gt_cases (String.length (Text.join " " g)) width) as [Hle|Hgt];
      [by left|right].
    destruct Hfit as [Hle|[w ->]]; [lia|]. cbn in *. split; [|lia].
    rewrite <- Hc. apply elem_of_concat. exists [w].
    split; [done|apply list_elem_of_here].
Qed.

Lemma wrap_text_words text width :
  str_words (Wrap.wrap_text text width) = str_words text.
Proof.
  destruct (wrap_lines_groups text width) as (groups & Hl & Hc & Hg).
  destruct (str_words_words text) as [Hw _]. rewrite <- Hc in Hw.
  unfold Wrap.wrap_text. rewrite Hl, <- Hc.
  rewrite <- (app_nil_s (Text.join nl1 (map (Text.join " ") groups))).
  rewrite str_words_lines; [by rewrite app_nil_r| |by left].
  apply Forall_forall. intros g Hin. apply Forall_forall. intros w Hwg.
  rewrite Forall_forall in Hw. apply Hw. apply elem_of_concat. eauto.
Qed.

(** X15. Wrapping changes only the whitespace: the words of the wrapped
    text are the words of the text, in order. Since the lines depend on the
    words alone, wrapping a wrapped text at the same width changes nothing. *)
Theorem wrap_keeps_words (text : string) (width : nat) :
  str_words (Wrap.wrap_text text width) = str_words text
  /\ Wrap.wrap_text (Wrap.wrap_text text width) width = Wrap.wrap_text text width
  /\ (str_words text = [] -> Wrap.wrap_text text width = "").
Proof.
  split_and!.
  - apply wrap_text_words.
  - unfold Wrap.wrap_text at 1. unfold Wrap.wrap_lines.
    rewrite wrap_text_words. reflexivity.
  - intros H. unfold Wrap.wrap_text, Wrap.wrap_lines. by rewrite H.
Qed.

(** ** The words of a text through [chunk_by_size] and [split_into_sections] *)

Lemma str_words_cons c t :
  str_words (String c t)
  = if Chars.is_space c then str_words t
    else if starts_word t then Text.push c (str_words t)
    else String c "" :: str_words t.
Proof.
  destruct t as [|c' t]; cbn [str_words starts_word].
  - by destruct (Chars.is_space c).
  - by destruct (Chars.is_space c), (Chars.is_space c').
Qed.

Lemma starts_word_words s : starts_word s = true -> str_words s <> [].
Proof.
  destruct s as [|c t]; [done|]. cbn [starts_word]. intros Hc.
  apply negb_true_iff in Hc. rewrite str_words_cons, Hc.
  destruct (starts_word t); [|done]. by destruct (str_words t).
Qed.

Lemma push_app c (l r : list string) :
  l <> [] -> Text.push c (l ++ r) = Text.push c l ++ r.
Proof. by destruct l. Qed.

Lemma words_of_cons x l : words_of (x :: l) = str_words x ++ words_of l.
Proof. done. Qed.

Lemma words_of_app l k : words_of (l ++ k) = words_of l ++ words_of k.
Proof. unfold words_of. by rewrite map_app, concat_app. Qed.

(** One more character in front of the first piece of a cut. *)
Lemma push_words c x l s :
  words_of (x :: l) = str_words s -> starts_word x = starts_word s ->
  words_of (Text.push c (x :: l)) = str_words (String c s).
Proof.
  cbn [Text.push]. rewrite !words_of_cons. intros Hw Hs.
  rewrite !str_words_cons, <- Hs, <- Hw.
  destruct (Chars.is_space c); [done|].
  destruct (starts_word x) eqn:Hx; [|done].
  rewrite push_app; [done|by apply starts_word_words].
Qed.

Lemma str_words_app_space a c r :
  Chars.is_space c = true ->
  str_words (a +:+ String c r) = str_words a ++ str_words r.
Proof.
  intros Hc. induction a as [|x a IH].
  - change ("" +:+ String c r) with (String c r). by rewrite str_words_cons, Hc.
  - change (String x a +:+ String c r) with (String x (a +:+ String c r)).
    rewrite !str_words_cons, IH.
    assert (Hs : starts_word (a +:+ String c r) = starts_word a).
    { destruct a; [cbn; by rewrite Hc|done]. }
    rewrite Hs. destruct (Chars.is_space x); [done|].
    destruct (starts_word a) eqn:Ha; [|done].
    rewrite push_app; [done|by apply starts_word_words].
Qed.

(** Joining with a whitespace character keeps the words. *)
Lemma words_of_join c l :
  Chars.is_space c = true -> str_words (Text.join (String c "") l) = words_of l.
Proof.
  intros Hc. induction l as [|x l IH]; [done|]. destruct l as [|y l].
  - rewrite words_of_cons. cbn [Text.join]. unfold words_of. cbn [map concat].
    by rewrite app_nil_r.
  - change (Text.join (String c "") (x :: y :: l))
      with (x +:+ String c (Text.join (String c "") (y :: l))).
    rewrite str_words_app_space by done. by rewrite IH.
Qed.

Lemma words_of_groups groups :
  words_of (map (Text.join " ") groups) = words_of (concat groups).
Proof.
  induction groups as [|g groups IH]; [done|].
  cbn [map]. rewrite words_of_cons, IH, (concat_cons g), words_of_app.
  by rewrite (words_of_join " ").
Qed.

Lemma str_words_lstrip s : str_words (Text.lstrip s) = str_words s.
Proof.
  induction s as [|c s IH]; [done|]. cbn [Text.lstrip].
  destruct (Chars.is_space c) eqn:Hc; [|done].
  by rewrite IH, (str_words_cons c s), Hc.
Qed.

Lemma starts_word_rstrip s : starts_word (Text.rstrip s) = starts_word s.
Proof.
  destruct s as [|c s]; [done|]. cbn [Text.rstrip]. cbv zeta.
  destruct (Chars.is_space c) eqn:Hc; cbn [andb].
  - destruct (Text.is_empty _); cbn [starts_word]; rewrite ?Hc; done.
  - cbn [starts_word]. done.
Qed.

Lemma str_words_rstrip s : str_words (Text.rstrip s) = str_words s.
Proof.
  induction s as [|c s IH]; [done|]. cbn [Text.rstrip]. cbv zeta.
  rewrite (str_words_cons c s), <- IH, <- (starts_word_rstrip s).
  destruct (Chars.is_space c) eqn:Hc; cbn [andb].
  - destruct (Text.rstrip s) eqn:E; cbn [Text.is_empty]; [done|].
    by rewrite str_words_cons, Hc.
  - by rewrite str_words_cons, Hc.
Qed.

(** Stripping keeps the words. *)
Lemma str_words_strip s : str_words (Text.strip s) = str_words s.
Proof. unfold Text.strip. by rewrite str_words_rstrip, str_words_lstrip. Qed.

Lemma blank_words s : nonblank s = false -> str_words s = [].
Proof.
  unfold nonblank. intros H. apply negb_false_iff in H.
  rewrite <- str_words_strip. by rewrite (is_empty_true _ H).
Qed.

Lemma words_of_nonblank l :
  words_of (map Text.strip (List.filter nonblank l)) = words_of l.
Proof.
  induction l as [|x l IH]; [done|].
  cbn [List.filter]. destruct (nonblank x) eqn:Hx.
  - cbn [map]. by rewrite !words_of_cons, IH, str_words_strip.
  - by rewrite words_of_cons, IH, (blank_words _ Hx).
Qed.

(** The pieces a comprehension drops take their words with them; the words
    of those it keeps stay in order. *)
Lemma words_of_kept (f : string -> bool) l :
  words_of (map Text.strip (List.filter f l)) `sublist_of` words_of l.
Proof.
  induction l as [|x l IH]; [apply sublist_nil_l|].
  cbn [List.filter]. destruct (f x).
  - cbn [map]. rewrite !words_of_cons, str_words_strip. by apply sublist_app.
  - rewrite words_of_cons. by apply sublist_inserts_l.
Qed.

(** A pattern cuts at newlines only. *)
Lemma pattern_words p text :
  In p patterns -> words_of (Regex.split p text) = str_words text.
Proof.
  intros Hp.
  assert (E : Text.join nl1 (Regex.split p text) = text).
  { destruct Hp as [<-|[<-|[<-|[<-|[]]]]]; eapply Cut_join;
      [apply split_header|apply split_numbered|apply split_article
      |apply split_section]. }
  transitivity (str_words (Text.join nl1 (Regex.split p text)));
    [symmetry; by apply (words_of_join Chars.nl)|by rewrite E].
Qed.

Lemma starts_with_take p : forall s,
  Text.starts_with p s = true -> Text.take (String.length p) s = p.
Proof.
  induction p as [|a p IH]; intros s H; [by destruct s|].
  destruct s as [|b s]; [done|]. cbn [Text.starts_with] in H.
  apply andb_prop in H as [Hab H]. apply Ascii.eqb_eq in Hab as ->.
  change (Text.take (String.length (String b p)) (String b s))
    with (String b (Text.take (String.length p) s)).
  by rewrite IH.
Qed.

(** [str.split] at a separator made of whitespace keeps the words. *)
Lemma split_from_words sep :
  all_of Chars.is_space sep = true -> sep <> "" ->
  forall s skip,
    all_of Chars.is_space (Text.take skip s) = true ->
    words_of (Text.split_from sep skip s) = str_words s
    /\ (skip = 0 -> exists x l, Text.split_from sep 0 s = x :: l
                                /\ starts_word x = starts_word s).
Proof.
  intros Hsep Hne. induction s as [|c s IH]; intros skip Hskip.
  - split; [done|]. intros _. by exists "", [].
  - destruct skip as [|k].
    + cbn [Text.split_from].
      destruct (Text.starts_with sep (String c s)) eqn:Hst.
      * destruct sep as [|a sep']; [done|].
        cbn [Text.starts_with] in Hst. apply andb_prop in Hst as [Hac Hst].
        apply Ascii.eqb_eq in Hac as ->. cbn [all_of] in Hsep.
        apply andb_prop in Hsep as [Hc Hsep'].
        replace (String.length (String c sep') - 1) with (String.length sep')
          by (cbn [String.length]; lia).
        destruct (IH (String.length sep')) as [Hw _].
        { by rewrite (starts_with_take _ _ Hst). }
        split.
        -- by rewrite words_of_cons, Hw, (str_words_cons c s), Hc.
        -- intros _. eexists "", _. split; [done|]. cbn [starts_word].
           by rewrite Hc.
      * destruct (IH 0) as [Hw Hx]; [done|].
        destruct (Hx eq_refl) as (x & l & E & Hs). rewrite E in *.
        split; [by apply push_words|].
        intros _. exists (String c x), l. done.
    + change (Text.take (S k) (String c s)) with (String c (Text.take k s)) in Hskip.
      cbn [all_of] in Hskip. apply andb_prop in Hskip as [Hc Hk].
      cbn [Text.split_from]. destruct (IH k Hk) as [Hw _].
      split; [|done]. by rewrite Hw, (str_words_cons c s), Hc.
Qed.

Lemma split_words sep text :
  all_of Chars.is_space sep = true -> sep <> "" ->
  words_of (Text.split sep text) = str_words text.
Proof.
  intros Hsep Hne. by apply (split_from_words sep Hsep Hne text 0).
Qed.

(** The sentences of a text have its words. *)
Lemma Sentences_words b s l :
  Sentences b s l ->
  words_of l = str_words s
  /\ exists x l', l = x :: l' /\ starts_word x = starts_word s.
Proof.
  induction 1 as [b|c s l Hc _ [IHw _]|b c s l _ _ [IHw (x & l' & -> & Hs)]].
  - split; [done|]. by exists "", [].
  - split.
    + by rewrite words_of_cons, IHw, str_words_lstrip, (str_words_cons c s), Hc.
    + exists "", l. split; [done|]. cbn [starts_word]. by rewrite Hc.
  - split; [by apply push_words|].
    exists (String c x), l'. done.
Qed.

Lemma reached_snoc lo l c :
  reached lo l ->
  lo - (if nonempty l then 0 else 1) <= String.length c ->
  reached lo (l ++ [c]).
Proof.
  destruct l as [|x l]; cbn [reached nonempty app].
  - intros _ H. split; [lia|constructor].
  - intros [Hx Hl] H. split; [done|]. apply Forall_app. split; [done|].
    constructor; [lia|constructor].
Qed.

Lemma reached_extend lo init x s :
  reached lo (init ++ [x]) -> reached lo (init ++ [x +:+ s]).
Proof.
  destruct init as [|y init]; cbn [reached app].
  - intros [H _]. split; [rewrite length_app_s; lia|constructor].
  - intros [Hy H]. split; [done|]. apply Forall_app in H as [Hi Hx].
    apply Forall_app. split; [done|]. inversion Hx; subst.
    constructor; [rewrite length_app_s; lia|constructor].
Qed.

Lemma reached_all lo l :
  reached lo l -> Forall (fun chunk => lo - 1 <= String.length chunk) l.
Proof.
  destruct l as [|x l]; [constructor|]. intros [Hx Hl].
  constructor; [done|]. eapply Forall_impl; [exact Hl|]. cbn. intros. lia.
Qed.

(** When the loop closes a chunk, or emits the last one, the chunk has
    reached the minimum: the counter is its length, plus one for the first
    chunk. *)
Lemma measured_reached lo st :
  measured st -> lo <= current_length st ->
  lo - (if nonempty (chunks st) then 0 else 1)
  <= String.length (Text.join " " (current_chunk st))
  /\ (0 < lo -> current_chunk st <> []).
Proof.
  unfold measured. intros Hm Hlo. destruct (current_chunk st) as [|x cur].
  - destruct Hm as [Hm ->]. cbn [nonempty]. split; [lia|].
    intros H. exfalso. lia.
  - split; [destruct (nonempty (chunks st)); lia|done].
Qed.

Lemma pack_grouped lo hi done st s :
  measured st -> grouped lo done st ->
  grouped lo (done ++ [s]) (pack lo hi st s).
Proof.
  intros Hm (groups & Hc & Hd & Hg & Hr). unfold pack. cbv zeta.
  destruct (_ && _) eqn:E.
  - apply andb_prop in E as [_ Hlo]. apply Nat.leb_le in Hlo.
    destruct (measured_reached lo st Hm Hlo) as [Hlen Hne].
    exists (groups ++ [current_chunk st]). cbn [chunks current_chunk].
    split; [by rewrite map_app, Hc|]. split; [|split].
    + rewrite concat_app. cbn [concat]. rewrite app_nil_r. by rewrite Hd.
    + intros Hpos. apply Forall_app. split; [auto|].
      constructor; [auto|constructor].
    + by apply reached_snoc.
  - exists groups. cbn [chunks current_chunk].
    split; [done|]. split; [by rewrite app_assoc, Hd|done].
Qed.

Lemma fold_grouped lo hi l : forall done st,
  measured st -> grouped lo done st ->
  grouped lo (done ++ l) (fold_left (pack lo hi) l st).
Proof.
  induction l as [|s l IH]; intros done st Hm Hg; [by rewrite app_nil_r|].
  cbn [fold_left].
  replace (done ++ s :: l) with ((done ++ [s]) ++ l) by (by rewrite <- app_assoc).
  apply IH; [by apply pack_measured|by apply pack_grouped].
Qed.

Lemma join_app_space g h :
  g <> [] -> h <> [] ->
  Text.join " " (g ++ h) = Text.join " " g +:+ " " +:+ Text.join " " h.
Proof.
  intros Hg Hh. induction g as [|x g IH]; [done|]. destruct g as [|y g].
  - by destruct h.
  - change (Text.join " " ((x :: y :: g) ++ h))
      with (x +:+ " " +:+ Text.join " " ((y :: g) ++ h)).
    rewrite IH by done.
    change (Text.join " " (x :: y :: g))
      with (x +:+ " " +:+ Text.join " " (y :: g)).
    by rewrite !app_assoc_s.
Qed.

(** The result of [chunk_by_size]: the text itself, or runs of its
    sentences. *)
Lemma chunk_by_size_groups text lo hi :
  chunk_by_size text lo hi = [text]
  \/ exists groups,
       concat groups = Regex.split pattern_sentence text
       /\ chunk_by_size text lo hi = map (Text.join " ") groups
       /\ (0 < lo -> Forall (fun g => g <> []) groups)
       /\ reached lo (chunk_by_size text lo hi).
Proof.
  assert (Hres : chunk_by_size text lo hi
                 = let sentences := Regex.split pattern_sentence text in
                   let st := fold_left (pack lo hi) sentences (Packing [] [] 0) in
                   let chunks' :=
                     if nonempty (current_chunk st) && (lo <=? current_length st)
                     then chunks st ++ [Text.join " " (current_chunk st)]
                     else if nonempty (current_chunk st) && nonempty (chunks st)
                          then extend_last (chunks st)
                                 (" " +:+ Text.join " " (current_chunk st))
                          else chunks st in
                   if nonempty chunks' then chunks' else [text]) by reflexivity.
  rewrite Hres. clear Hres. cbv zeta.
  set (sentences := Regex.split pattern_sentence text).
  set (st := fold_left (pack lo hi) sentences (Packing [] [] 0)).
  assert (Hs : Sentences false text sentences).
  { apply (split_sentences (String.length text) text None). lia. }
  destruct (Sentences_cons _ _ _ Hs) as (x & l' & Hl).
  destruct (fold_pack lo hi sentences (Packing [] [] 0)) as [Hm Hcur];
    [by cbn|].
  fold st in Hm, Hcur.
  assert (Hne : current_chunk st <> []) by (apply Hcur; by rewrite Hl).
  destruct (fold_grouped lo hi sentences [] (Packing [] [] 0))
    as (groups & Hc & Hd & Hg & Hr).
  { by cbn. }
  { exists []. by cbn. }
  fold st in Hc, Hd, Hr. cbn [app] in Hd.
  assert (Hn : nonempty (current_chunk st) = true)
    by (by destruct (current_chunk st)).
  rewrite Hn. cbn [andb].
  destruct (Nat.leb_spec lo (current_length st)) as [Hlo|Hlo].
  - right. destruct (measured_reached lo st Hm Hlo) as [Hlen _].
    assert (nonempty (chunks st ++ [Text.join " " (current_chunk st)]) = true)
      as -> by (by destruct (chunks st)).
    exists (groups ++ [current_chunk st]). split; [|split; [|split]].
    + rewrite concat_app. cbn [concat]. by rewrite app_nil_r.
    + by rewrite map_app, Hc.
    + intros Hpos. apply Forall_app. split; [auto|].
      constructor; [done|constructor].
    + by apply reached_snoc.
  - induction groups as [|g groups _] using rev_ind.
    + left. by rewrite Hc.
    + right. rewrite Hc in Hr |- *. rewrite map_app in Hr |- *. cbn [map] in Hr |- *.
      assert (nonempty (map (Text.join " ") groups ++ [Text.join " " g]) = true)
        as -> by (by destruct groups).
      rewrite extend_last_snoc.
      assert (nonempty (map (Text.join " ") groups
                          ++ [Text.join " " g +:+ " "
                                +:+ Text.join " " (current_chunk st)]) = true)
        as -> by (by destruct groups).
      assert (Hpos : 0 < lo) by lia.
      specialize (Hg Hpos). apply Forall_app in Hg as [Hg Hlast].
      inversion Hlast as [|? ? Hgne _]; subst.
      exists (groups ++ [g ++ current_chunk st]). split; [|split; [|split]].
      * rewrite concat_app in Hd |- *. cbn [concat] in Hd |- *.
        rewrite app_nil_r in Hd |- *. by rewrite <- Hd, app_assoc.
      * rewrite map_app. cbn [map]. by rewrite join_app_space.
      * intros _. apply Forall_app. split; [done|].
        constructor; [by destruct g|constructor].
      * by apply reached_extend.
Qed.

Lemma sections_of_taken p text :
  taken patterns text = Some p ->
  split_into_sections text = stripped_nonempty (Regex.split p text).
Proof.
  intros Hp. unfold split_into_sections. rewrite first_pattern_taken, Hp.
  pose proof (taken_In _ _ _ Hp) as Hin.
  destruct (pattern_pieces p text Hin) as [Hlo _].
  apply taken_spec in Hp as (_ & _ & _ & _ & Hgt).
  apply fallback_enough. lia.
Qed.

(** X16. The chunks of [chunk_by_size] are runs of consecutive sentences
    of the text, each run joined by single spaces, and the runs together
    are all the sentences in their order; no run is empty when [min_chars]
    is positive. The one exception is a text that never fills a chunk, which
    is returned whole. *)
Theorem chunks_are_sentence_runs (text : string) (min_chars max_chars : nat) :
  let sentences := Regex.split pattern_sentence text in
  Sentences false text sentences
  /\ (chunk_by_size text min_chars max_chars = [text]
      \/ exists groups,
           concat groups = sentences
           /\ chunk_by_size text min_chars max_chars
              = map (Text.join " ") groups
           /\ (0 < min_chars -> Forall (fun g => g <> []) groups)).
Proof.
  intros sentences. split.
  - apply (split_sentences (String.length text) text None). lia.
  - destruct (chunk_by_size_groups text min_chars max_chars)
      as [H|(groups & H1 & H2 & H3 & _)]; [by left|right; eauto].
Qed.

(** X17. Unless the text is returned whole, every chunk has reached
    [min_chars], except that the first chunk may be one character short of
    it: the counter of the loop counts a separator before the first
    sentence. *)
Theorem chunks_reach_minimum (text : string) (min_chars max_chars : nat) :
  chunk_by_size text min_chars max_chars = [text]
  \/ (reached min_chars (chunk_by_size text min_chars max_chars)
      /\ Forall (fun chunk => min_chars - 1 <= String.length chunk)
                (chunk_by_size text min_chars max_chars)).
Proof.
  destruct (chunk_by_size_groups text min_chars max_chars)
    as [H|(groups & _ & _ & _ & H)]; [by left|right].
  split; [done|by apply reached_all].
Qed.

Lemma chunk_words text lo hi : words_of (chunk_by_size text lo hi) = str_words text.
Proof.
  destruct (chunk_by_size_groups text lo hi) as [->|(groups & Hc & -> & _)].
  - rewrite words_of_cons. apply app_nil_r.
  - rewrite words_of_groups, Hc.
    apply (Sentences_words false).
    apply (split_sentences (String.length text) text None). lia.
Qed.

(** X18. [chunk_by_size] changes only the whitespace: the words of the
    chunks, in order, are the words of the text, whatever the two bounds. *)
Theorem chunks_keep_words (text : string) (min_chars max_chars : nat) :
  words_of (chunk_by_size text min_chars max_chars) = str_words text.
Proof. apply chunk_words. Qed.

Lemma first_pattern_words text :
  words_of (first_pattern patterns text) `sublist_of` str_words text.
Proof.
  rewrite first_pattern_taken. destruct (taken patterns text) as [p|] eqn:Hp;
    [|apply sublist_nil_l].
  unfold stripped_nonempty.
  change (fun s => negb (Text.is_empty (Text.strip s))) with nonblank.
  rewrite words_of_nonblank, pattern_words; [done|by eapply taken_In].
Qed.

(** X19. [split_into_sections] never invents, reorders or breaks a word:
    the words of the sections, in order, are a subsequence of the words of
    the text. When a pattern is taken, and when the sections are those of
    [chunk_by_size], they are all the words of the text: only the paragraph
    and line steps drop text, the pieces that are too short. *)
Theorem sections_keep_words (text : string) :
  words_of (split_into_sections text) `sublist_of` str_words text
  /\ (forall p, taken patterns text = Some p ->
                words_of (split_into_sections text) = str_words text)
  /\ (split_into_sections text = chunk_by_size text 300 2000 ->
      words_of (split_into_sections text) = str_words text).
Proof.
  split; [|split].
  - unfold split_into_sections, fallback. cbv zeta.
    pose proof (first_pattern_words text) as Ha.
    assert (Hb : words_of (long_paragraphs (Text.split nl2 text))
                 `sublist_of` str_words text).
    { rewrite <- (split_words nl2 text) by done. apply words_of_kept. }
    assert (Hc : words_of (long_lines (Text.split nl1 text))
                 `sublist_of` str_words text).
    { rewrite <- (split_words nl1 text) by done. apply words_of_kept. }
    repeat match goal with
           | |- context [if ?b then _ else _] => destruct b
           end; try done; by rewrite chunk_words.
  - intros p Hp. rewrite (sections_of_taken _ _ Hp).
    unfold stripped_nonempty.
    change (fun s => negb (Text.is_empty (Text.strip s))) with nonblank.
    rewrite words_of_nonblank. apply pattern_words. by eapply taken_In.
  - intros ->. apply chunk_words.
Qed.

(** ** [clear_database] *)

(** X20. [clear_database] acts on [yes] only, in any mix of capitals: the
    database is emptied and written once, so that a restart starts from an
    empty database, and until something is reviewed again the verdict on
    any text is [INCOMPLETE]. Any other answer leaves the reviewer, and the
    file with it, as it was. *)
Theorem clear_database_resets (r : reviewer) (confirm : string) :
  let r' := clear_database r confirm in
  (Text.lower confirm = "yes" ->
   reviewed_sections r' = ∅
   /\ saves r' = S (saves r)
   /\ asked r' = asked r
   /\ new_reviewer (db_file r') = Some (Reviewer ∅ [] (db_file r') 0 [])
   /\ forall text n,
        provide_verdict (reviewed_sections r') (split_into_sections text) n
        = INCOMPLETE)
  /\ (Text.lower confirm <> "yes" -> r' = r).
Proof.
  intros r'. subst r'. unfold clear_database.
  destruct (String.eqb_spec (Text.lower confirm) "yes") as [Hy|Hn];
    (split; [|done]); [|done].
  intros _. cbn [save_database reviewed_sections saves asked db_file].
  split; [done|]. split; [done|]. split; [done|]. split.
  - unfold new_reviewer, load_database, items.
    cbn [reviewed_sections key_order].
    by rewrite (load_dump ∅ [] keyed_empty).
  - intros text n. apply verdict_rules. left.
    destruct (sections_cases text) as [Hne _].
    destruct (split_into_sections text) as [|s l]; [done|].
    exists s. split; [apply list_elem_of_here|apply lookup_empty].
Qed.
